(** * LightDependentResistor: a shallow embedding of the LDR library

    The C library turns a raw ADC code read on a photoresistor voltage divider
    into an illuminance (lux or footcandles) and smooths it with a moving
    average kept in a circular buffer.

    Numbers are modelled as the C code has them on its target (STM32, a 32-bit
    ARM): [float] is IEEE 754 binary32, [double] is binary64, both taken from
    the Standard Library's [SpecFloat] with round-to-nearest-even;
    [uint16_t], [uint32_t] and [unsigned long] are [Z] with their wrap-around
    written out.  Expressions are evaluated in the type C gives them
    (FLT_EVAL_METHOD 0): an operation on two [float]s rounds to binary32, an
    operation with a [double] operand is done in binary64. *)

From Stdlib Require Import ZArith Bool Lia.
From Stdlib Require Import Floats.SpecFloat.
From stdpp Require Import base list.

Local Open Scope Z_scope.

(** ** The two floating-point formats *)

Module F32.
Definition prec : Z := 24.
Definition emax : Z := 128.
Definition add := SFadd prec emax.
Definition sub := SFsub prec emax.
Definition mul := SFmul prec emax.
Definition div := SFdiv prec emax.
Definition ltb := SFltb.
Definition eqb := SFeqb.
(** Conversion of an integer to [float]. *)
Definition of_Z (z : Z) : spec_float := binary_normalize prec emax z 0 false.
(** Conversion of a [double] to [float]: rounds, and overflows to infinity. *)
Definition of_double (x : spec_float) : spec_float :=
  match x with
  | S754_finite s m e => binary_normalize prec emax (cond_Zopp s (Zpos m)) e s
  | _ => x
  end.
End F32.

Module F64.
Definition prec : Z := 53.
Definition emax : Z := 1024.
Definition mul := SFmul prec emax.
Definition div := SFdiv prec emax.
Definition eqb := SFeqb.
(** Conversion of an integer to [double]. *)
Definition of_Z (z : Z) : spec_float := binary_normalize prec emax z 0 false.
(** Promotion of a [float] to [double]: exact. *)
Definition of_float (x : spec_float) : spec_float :=
  match x with
  | S754_finite s m e => binary_normalize prec emax (cond_Zopp s (Zpos m)) e s
  | _ => x
  end.
End F64.

(** Integer part of a finite float, rounded toward zero. *)
Definition truncate (x : spec_float) : option Z :=
  match x with
  | S754_zero _ => Some 0
  | S754_finite s m (Zpos p) => Some (cond_Zopp s (Zpos m * 2 ^ Zpos p))
  | S754_finite s m Z0 => Some (cond_Zopp s (Zpos m))
  | S754_finite s m (Zneg p) => Some (cond_Zopp s (Zpos m / 2 ^ Zpos p))
  | _ => None
  end.

(** ** What the library takes from its platform

    [pow] is libm's, on [double]s.  C leaves the conversion of a [float] to
    [unsigned long] undefined when the integer part is not representable
    (negative, too large, infinite or NaN); [ftoul_unrepresentable] is what the
    target's conversion yields there. *)
Class Platform := {
  pow : spec_float -> spec_float -> spec_float;
  ftoul_unrepresentable : spec_float -> Z
}.

Definition ULONG_MOD : Z := 2 ^ 32.
Definition UINT32_MOD : Z := 2 ^ 32.
Definition UINT16_MOD : Z := 2 ^ 16.

(** Conversion of a [float] to [unsigned long]. *)
Definition float_to_ulong `{Platform} (x : spec_float) : Z :=
  match truncate x with
  | Some z => if (0 <=? z) && (z <? ULONG_MOD) then z else ftoul_unrepresentable x
  | None => ftoul_unrepresentable x
  end.

(** ** Constants of LightDependentResistor.c *)

Definition OTHER_RESISTOR : Z := 3300.
Definition ADC_RESOLUTION_BITS : Z := 12.
Definition SMOOTHING_HISTORY_SIZE : Z := 10.
(** [sizeof(_smoothing_history_values) / sizeof(_smoothing_history_values[0])] *)
Definition HISTORY_SLOTS : Z := 100.

(** Literals. [-1.0f] and [-0.1f] are [float] literals; [10.764] and the
    exponents of the presets are [double] literals. *)
Definition minus_one_f : spec_float := F32.of_Z (-1).
Definition minus_tenth_f : spec_float := F32.div (F32.of_Z (-1)) (F32.of_Z 10).
Definition zero_f : spec_float := S754_zero false.
Definition lux_per_footcandle : spec_float := F64.div (F64.of_Z 10764) (F64.of_Z 1000).
Definition double_lit (num den : Z) : spec_float := F64.div (F64.of_Z num) (F64.of_Z den).

(** [ePhotoCellDeviceType]; a C enum is an integer, and [LDR_init] has a
    [default] branch for the values that name no device. *)
Definition GL5516 : Z := 0.
Definition GL5528 : Z := 1.
Definition GL5537_1 : Z := 2.
Definition GL5537_2 : Z := 3.
Definition GL5539 : Z := 4.
Definition GL5549 : Z := 5.

(** ** The module's variables *)

Record state := {
  _mult_value : spec_float;
  _pow_value : spec_float;
  _photocell_on_ground : bool;
  _smoothing_sum : spec_float;
  _smoothing_history_size : Z;
  _smoothing_history_next : Z;
  _smoothing_history_values : list spec_float
}.

(** The variables when the program starts: objects of static storage duration
    are zero-initialised, and [_photocell_on_ground] is initialised to [false]. *)
Definition startup : state := {|
  _mult_value := zero_f;
  _pow_value := zero_f;
  _photocell_on_ground := false;
  _smoothing_sum := zero_f;
  _smoothing_history_size := 0;
  _smoothing_history_next := 0;
  _smoothing_history_values := replicate (Z.to_nat HISTORY_SLOTS) zero_f
|}.

(** [a[i]] and [a[i] = v].  The code only indexes below the array's length in
    the states it reaches (see [index_in_range]); outside, where C defines
    nothing, the model reads [+0] and writes nothing. *)
Definition array_get (a : list spec_float) (i : Z) : spec_float :=
  default zero_f (a !! Z.to_nat i).
Definition array_set (a : list spec_float) (i : Z) (v : spec_float) : list spec_float :=
  <[Z.to_nat i := v]> a.

(** ** The exported functions *)

(** The loop of [LDR_init]: [for (i = 0; i < size; i++) values[i] = -1.0f]. *)
Fixpoint mark_unfilled (count : nat) (i : Z) (values : list spec_float) : list spec_float :=
  match count with
  | O => values
  | S count' => mark_unfilled count' (i + 1) (array_set values i minus_one_f)
  end.

(** The [switch] of [LDR_init]: multiplier and exponent of a device. *)
Definition preset (typeDevice : Z) : spec_float * spec_float :=
  if typeDevice =? GL5516 then (F32.of_Z 29634400, F32.of_double (double_lit 16689 10000))
  else if typeDevice =? GL5537_1 then (F32.of_Z 32435800, F32.of_double (double_lit 14899 10000))
  else if typeDevice =? GL5537_2 then (F32.of_Z 2801820, F32.of_double (double_lit 11772 10000))
  else if typeDevice =? GL5539 then (F32.of_Z 208510000, F32.of_double (double_lit 14850 10000))
  else if typeDevice =? GL5549 then (F32.of_Z 44682100, F32.of_double (double_lit 12750 10000))
  else (F32.of_Z 32017200, F32.of_double (double_lit 15832 10000)).

(** [LDR_init], with the macro [SMOOTHING_HISTORY_SIZE] as [history_size]. *)
Definition LDR_init_with (history_size : Z) (typeDevice : Z) (st : state) : state :=
  let size := history_size mod UINT32_MOD in
  let size := if HISTORY_SLOTS <? size then HISTORY_SLOTS else size in
  {| _mult_value := fst (preset typeDevice);
     _pow_value := snd (preset typeDevice);
     _photocell_on_ground := false;
     _smoothing_sum := _smoothing_sum st;
     _smoothing_history_size := size;
     _smoothing_history_next := _smoothing_history_next st;
     _smoothing_history_values :=
       mark_unfilled (Z.to_nat size) 0 (_smoothing_history_values st) |}.

Definition LDR_init : Z -> state -> state := LDR_init_with SMOOTHING_HISTORY_SIZE.

Definition LDR_setPhotocellPositionOnGround (on_ground : bool) (st : state) : state :=
  {| _mult_value := _mult_value st;
     _pow_value := _pow_value st;
     _photocell_on_ground := on_ground;
     _smoothing_sum := _smoothing_sum st;
     _smoothing_history_size := _smoothing_history_size st;
     _smoothing_history_next := _smoothing_history_next st;
     _smoothing_history_values := _smoothing_history_values st |}.

Definition LDR_updatePhotocellParameters (mult_value pow_value : spec_float) (st : state) : state :=
  {| _mult_value := mult_value;
     _pow_value := pow_value;
     _photocell_on_ground := _photocell_on_ground st;
     _smoothing_sum := _smoothing_sum st;
     _smoothing_history_size := _smoothing_history_size st;
     _smoothing_history_next := _smoothing_history_next st;
     _smoothing_history_values := _smoothing_history_values st |}.

(** [intensity_in_lux / 10.764]: the operand is promoted to [double], the
    quotient is converted back to [float] by the [return]. *)
Definition LDR_luxToFootCandles (intensity_in_lux : spec_float) : spec_float :=
  F32.of_double (F64.div (F64.of_float intensity_in_lux) lux_per_footcandle).

Definition LDR_footCandlesToLux (intensity_in_footcandles : spec_float) : spec_float :=
  F32.of_double (F64.mul lux_per_footcandle (F64.of_float intensity_in_footcandles)).

Section Conversion.
Context `{Platform}.

(** [pow(2, ADC_RESOLUTION_BITS)] *)
Definition full_scale : spec_float := pow (F64.of_Z 2) (F64.of_Z ADC_RESOLUTION_BITS).

(** The guard of [LDR_rawAnalogValueToLux]: the raw value after
    [if (pow(2, ADC_RESOLUTION_BITS) == raw_analog_value) raw_analog_value--;] *)
Definition guarded_raw (raw_analog_value : Z) : Z :=
  if F64.eqb full_scale (F64.of_Z raw_analog_value)
  then (raw_analog_value - 1) mod UINT16_MOD
  else raw_analog_value.

(** The divisor of the ratio: [(float)raw_analog_value] after the guard. *)
Definition ratio_divisor (raw_analog_value : Z) : spec_float :=
  F32.of_Z (guarded_raw raw_analog_value).

(** [ratio = ((float)pow(2, ADC_RESOLUTION_BITS) / (float)raw_analog_value) - 1] *)
Definition ratio (raw_analog_value : Z) : spec_float :=
  F32.sub (F32.div (F32.of_double full_scale) (ratio_divisor raw_analog_value))
          (F32.of_Z 1).

(** The divider formula, before it is stored in [photocell_resistor]. *)
Definition divider (st : state) (raw_analog_value : Z) : spec_float :=
  if _photocell_on_ground st
  then F32.div (F32.of_Z OTHER_RESISTOR) (ratio raw_analog_value)
  else F32.mul (F32.of_Z OTHER_RESISTOR) (ratio raw_analog_value).

(** The value of the local [unsigned long photocell_resistor]. *)
Definition photocell_resistor (st : state) (raw_analog_value : Z) : Z :=
  float_to_ulong (divider st raw_analog_value).

(** [_mult_value / (float)pow(photocell_resistor, _pow_value)] *)
Definition resistor_to_lux (st : state) (resistor : Z) : spec_float :=
  F32.div (_mult_value st)
          (F32.of_double (pow (F64.of_Z resistor) (F64.of_float (_pow_value st)))).

Definition LDR_rawAnalogValueToLux (st : state) (raw_analog_value : Z) : spec_float :=
  resistor_to_lux st (photocell_resistor st raw_analog_value).

Definition LDR_getCurrentLux (st : state) (rawAnalogValue : Z) : spec_float :=
  LDR_rawAnalogValueToLux st rawAnalogValue.

Definition LDR_getCurrentFootCandles (st : state) (rawAnalogValue : Z) : spec_float :=
  LDR_luxToFootCandles (LDR_getCurrentLux st rawAnalogValue).
End Conversion.

(** Replacing the three smoothing variables that [LDR_getSmoothedLux] writes. *)
Definition with_smoothing (st : state) (sum : spec_float) (next : Z)
    (values : list spec_float) : state :=
  {| _mult_value := _mult_value st;
     _pow_value := _pow_value st;
     _photocell_on_ground := _photocell_on_ground st;
     _smoothing_sum := sum;
     _smoothing_history_size := _smoothing_history_size st;
     _smoothing_history_next := next;
     _smoothing_history_values := values |}.

(** The body of [LDR_getSmoothedLux], where [lux] is the value of the call
    [LDR_getCurrentLux(rawAnalogValue)]: each of the three branches makes that
    call exactly once, and the call reads the calibration variables only, which
    the body never writes.  Returns [sumResult] and the variables afterwards. *)
Definition smooth (lux : spec_float) (st : state) : spec_float * state :=
  let size := _smoothing_history_size st in
  let next := _smoothing_history_next st in
  let values := _smoothing_history_values st in
  if size =? 0 then
    (lux, st)
  else if F32.ltb (array_get values next) minus_tenth_f then
    let values := array_set values next lux in
    let sum := F32.add (_smoothing_sum st) (array_get values next) in
    if next <? (size - 1) mod UINT32_MOD then
      let next := (next + 1) mod UINT32_MOD in
      (F32.div sum (F32.of_Z next), with_smoothing st sum next values)
    else
      (F32.div sum (F32.of_Z size), with_smoothing st sum 0 values)
  else
    let sum := F32.sub (_smoothing_sum st) (array_get values next) in
    let values := array_set values next lux in
    let sum := F32.add sum (array_get values next) in
    let next := if next <? (size - 1) mod UINT32_MOD
                then (next + 1) mod UINT32_MOD else 0 in
    (F32.div sum (F32.of_Z size), with_smoothing st sum next values).

Definition LDR_getSmoothedLux `{Platform} (st : state) (rawAnalogValue : Z)
    : spec_float * state :=
  smooth (LDR_getCurrentLux st rawAnalogValue) st.

Definition LDR_getSmoothedFootCandles `{Platform} (st : state) (rawAnalogValue : Z)
    : spec_float * state :=
  let r := LDR_getSmoothedLux st rawAnalogValue in
  (LDR_luxToFootCandles (fst r), snd r).

(** Feeding a sequence of lux samples, resp. of raw values, to the smoothing
    step: the reported averages in order, and the variables at the end. *)
Fixpoint smooth_all (samples : list spec_float) (st : state) : list spec_float * state :=
  match samples with
  | [] => ([], st)
  | lux :: rest =>
      let r := smooth lux st in
      let rs := smooth_all rest (snd r) in
      (fst r :: fst rs, snd rs)
  end.

Fixpoint getSmoothedLux_all `{Platform} (raws : list Z) (st : state)
    : list spec_float * state :=
  match raws with
  | [] => ([], st)
  | raw :: rest =>
      let r := LDR_getSmoothedLux st raw in
      let rs := getSmoothedLux_all rest (snd r) in
      (fst r :: fst rs, snd rs)
  end.

(** A smoothing buffer of the given capacity as the first [LDR_init] of a
    program leaves it. *)
Definition fresh (capacity : Z) : state := LDR_init_with capacity GL5528 startup.

(** ** A platform to run the model on

    [pow_integer] is [pow] for the exponents that are non-negative integers,
    by repeated multiplication in [double]: it gives [1] for the exponent [0],
    [x] for the exponent [1], [+0] for [0] to a positive power and [4096] for
    [2] to the [12], as C's Annex F and every libm do.  For any other exponent
    it gives NaN.  [ftoul_saturating] is the ARM conversion: NaN and negative
    values give [0], values too large give [ULONG_MAX]. *)
Fixpoint pow_nat (x : spec_float) (n : nat) : spec_float :=
  match n with
  | O => F64.of_Z 1
  | S n' => F64.mul x (pow_nat x n')
  end.

Definition pow_integer (x y : spec_float) : spec_float :=
  match truncate y with
  | Some n => if (0 <=? n) && F64.eqb (F64.of_Z n) y
              then pow_nat x (Z.to_nat n) else S754_nan
  | None => S754_nan
  end.

Definition ftoul_saturating (x : spec_float) : Z :=
  match x with
  | S754_finite false _ _ | S754_infinity false => ULONG_MOD - 1
  | _ => 0
  end.

Definition reference_platform : Platform :=
  {| pow := pow_integer; ftoul_unrepresentable := ftoul_saturating |}.

(** The variables after a calibration chosen by the caller: orientation
    [on_ground], multiplier [mult_value], exponent [pow_value]. *)
Definition calibrated (on_ground : bool) (mult_value pow_value : spec_float) (st : state) : state :=
  LDR_setPhotocellPositionOnGround on_ground
    (LDR_updatePhotocellParameters mult_value pow_value st).

(** Classes of floats used in the statements. *)
Definition finite_nonzero (x : spec_float) : bool :=
  match x with S754_finite _ _ _ => true | _ => false end.
Definition infinite_or_nan (x : spec_float) : bool :=
  match x with S754_infinity _ | S754_nan => true | _ => false end.

(** [count] consecutive integers from [from] on, and the values of a
    [uint16_t] from [from] on. *)
Fixpoint consecutive (from : Z) (count : nat) : list Z :=
  match count with
  | O => []
  | S count' => from :: consecutive (from + 1) count'
  end.
Definition uint16_from (from : Z) : list Z :=
  consecutive from (Z.to_nat (UINT16_MOD - from)).

(** The first [_smoothing_history_size] slots, the test the code uses for a
    slot that was never written, and the [float] sum of the written slots
    taken in index order. *)
Definition history (st : state) : list spec_float :=
  take (Z.to_nat (_smoothing_history_size st)) (_smoothing_history_values st).
Definition unfilled (v : spec_float) : bool := F32.ltb v minus_tenth_f.
Definition history_sum (st : state) : spec_float :=
  foldl F32.add zero_f (filter (fun v => unfilled v = false) (history st)).
Definition index_in_range (st : state) : Prop :=
  0 <= _smoothing_history_next st < _smoothing_history_size st.

(** The [double] 4096, and a platform whose [pow] is that constant: the ratio
    calls [pow] at (2, 12) only, so this platform evaluates it as any platform
    with [pow(2, 12) = 4096] does. *)
Definition double_4096 : spec_float := Eval vm_compute in F64.of_Z 4096.
Definition full_scale_platform : Platform :=
  {| pow := fun _ _ => double_4096; ftoul_unrepresentable := ftoul_saturating |}.

(** The variables while the buffer fills: the samples written so far, then
    unfilled slots up to the capacity, then the rest of the array. *)
Definition filling (capacity : nat) (rest samples : list spec_float) (st : state) : Prop :=
  _smoothing_history_size st = Z.of_nat capacity /\
  _smoothing_history_values st
    = samples ++ replicate (capacity - length samples) minus_one_f ++ rest /\
  _smoothing_history_next st
    = (if Z.of_nat (length samples) <? Z.of_nat capacity
       then Z.of_nat (length samples) else 0) /\
  _smoothing_sum st = foldl F32.add zero_f samples.

(** ** Client programs

    A call of one of the exported functions, and what a program that makes a
    sequence of such calls gets back: the value of each call that returns one,
    and the variables at the end. *)
Inductive call :=
  | Init (typeDevice : Z)
  | SetPhotocellPositionOnGround (on_ground : bool)
  | UpdatePhotocellParameters (mult_value pow_value : spec_float)
  | RawAnalogValueToLux (raw_analog_value : Z)
  | GetCurrentLux (rawAnalogValue : Z)
  | GetCurrentFootCandles (rawAnalogValue : Z)
  | GetSmoothedLux (rawAnalogValue : Z)
  | GetSmoothedFootCandles (rawAnalogValue : Z).

Definition do_call `{Platform} (c : call) (st : state) : option spec_float * state :=
  match c with
  | Init typeDevice => (None, LDR_init typeDevice st)
  | SetPhotocellPositionOnGround on_ground =>
      (None, LDR_setPhotocellPositionOnGround on_ground st)
  | UpdatePhotocellParameters mult_value pow_value =>
      (None, LDR_updatePhotocellParameters mult_value pow_value st)
  | RawAnalogValueToLux raw => (Some (LDR_rawAnalogValueToLux st raw), st)
  | GetCurrentLux raw => (Some (LDR_getCurrentLux st raw), st)
  | GetCurrentFootCandles raw => (Some (LDR_getCurrentFootCandles st raw), st)
  | GetSmoothedLux raw =>
      (Some (fst (LDR_getSmoothedLux st raw)), snd (LDR_getSmoothedLux st raw))
  | GetSmoothedFootCandles raw =>
      (Some (fst (LDR_getSmoothedFootCandles st raw)),
       snd (LDR_getSmoothedFootCandles st raw))
  end.

Fixpoint run `{Platform} (program : list call) (st : state)
    : list (option spec_float) * state :=
  match program with
  | [] => ([], st)
  | c :: rest =>
      let r := do_call c st in
      let rs := run rest (snd r) in
      (fst r :: fst rs, snd rs)
  end.

(** The smoothing variables stay inside the array: the array keeps its 100
    slots, the capacity is 0 (before any [LDR_init]) or 10, the next-write
    index is below 10, and the slots from 10 on are as at program start. *)
Definition within_bounds (st : state) : Prop :=
  length (_smoothing_history_values st) = Z.to_nat HISTORY_SLOTS /\
  (_smoothing_history_size st = 0 \/
   _smoothing_history_size st = SMOOTHING_HISTORY_SIZE) /\
  0 <= _smoothing_history_next st < SMOOTHING_HISTORY_SIZE /\
  (forall i, (Z.to_nat SMOOTHING_HISTORY_SIZE <= i < Z.to_nat HISTORY_SLOTS)%nat ->
             _smoothing_history_values st !! i = Some zero_f).

(** The calls that return a smoothed value. *)
Definition smoothed_read (c : call) : bool :=
  match c with
  | GetSmoothedLux _ | GetSmoothedFootCandles _ => true
  | _ => false
  end.

(** The slots of the history read round from the next-write index. *)
Definition oldest_first (st : state) : list spec_float :=
  drop (Z.to_nat (_smoothing_history_next st)) (history st)
  ++ take (Z.to_nat (_smoothing_history_next st)) (history st).

(** The variables once every slot was written: the slots, read round from the
    next-write index, are [window]. *)
Definition steady (capacity : nat) (rest window : list spec_float) (st : state) : Prop :=
  _smoothing_history_size st = Z.of_nat capacity /\
  length (_smoothing_history_values st) = (capacity + length rest)%nat /\
  drop capacity (_smoothing_history_values st) = rest /\
  0 <= _smoothing_history_next st < Z.of_nat capacity /\
  oldest_first st = window.

(** The sign bit of a float that is a number, and nothing for NaN. *)
Definition sign_of (x : spec_float) : option bool :=
  match x with
  | S754_zero s | S754_infinity s | S754_finite s _ _ => Some s
  | S754_nan => None
  end.

(** The integer part of the divider formula on a platform with
    [pow(2, 12) = 4096], where it is representable in an [unsigned long];
    [-1] where it is not. *)
Definition adc_resistor (on_ground : bool) (raw_analog_value : Z) : Z :=
  match truncate (if on_ground
                  then F32.div (F32.of_Z OTHER_RESISTOR)
                               (@ratio full_scale_platform raw_analog_value)
                  else F32.mul (F32.of_Z OTHER_RESISTOR)
                               (@ratio full_scale_platform raw_analog_value)) with
  | Some z => if (0 <=? z) && (z <? ULONG_MOD) then z else -1
  | None => -1
  end.

(** [z] is the integer part of [x]: [x] is a zero and [z] is 0, or [x] is the
    number [m * 2^e] with a sign, and [z] has that sign and the magnitude [k]
    with [k <= m * 2^e < k + 1]. *)
Definition integer_part_of (x : spec_float) (z : Z) : Prop :=
  match x with
  | S754_zero _ => z = 0
  | S754_finite s m e =>
      exists k, z = cond_Zopp s k /\ 0 <= k /\
        if 0 <=? e then k = Zpos m * 2 ^ e
        else k * 2 ^ (- e) <= Zpos m < (k + 1) * 2 ^ (- e)
  | _ => False
  end.

(** * Properties *)

(** ** The smoothing step leaves the calibration alone *)

Lemma smooth_mult lux st : _mult_value (snd (smooth lux st)) = _mult_value st.
Proof. unfold smooth. repeat case_match; reflexivity. Qed.

Lemma smooth_pow lux st : _pow_value (snd (smooth lux st)) = _pow_value st.
Proof. unfold smooth. repeat case_match; reflexivity. Qed.

Lemma smooth_on_ground lux st :
  _photocell_on_ground (snd (smooth lux st)) = _photocell_on_ground st.
Proof. unfold smooth. repeat case_match; reflexivity. Qed.

Lemma smooth_size lux st :
  _smoothing_history_size (snd (smooth lux st)) = _smoothing_history_size st.
Proof. unfold smooth. repeat case_match; reflexivity. Qed.

(** The conversion reads the calibration variables only. *)
Lemma getCurrentLux_calibration `{Platform} st st' raw :
  _mult_value st' = _mult_value st ->
  _pow_value st' = _pow_value st ->
  _photocell_on_ground st' = _photocell_on_ground st ->
  LDR_getCurrentLux st' raw = LDR_getCurrentLux st raw.
Proof.
  intros Hm Hp Hg.
  unfold LDR_getCurrentLux, LDR_rawAnalogValueToLux, resistor_to_lux,
    photocell_resistor, divider.
  rewrite Hm, Hp, Hg. reflexivity.
Qed.

Lemma getCurrentLux_smooth `{Platform} lux st raw :
  LDR_getCurrentLux (snd (smooth lux st)) raw = LDR_getCurrentLux st raw.
Proof.
  apply getCurrentLux_calibration;
    [apply smooth_mult | apply smooth_pow | apply smooth_on_ground].
Qed.

Lemma getSmoothedLux_all_samples `{Platform} raws : forall st,
  getSmoothedLux_all raws st = smooth_all (map (LDR_getCurrentLux st) raws) st.
Proof.
  induction raws as [|raw rest IH]; intros st; simpl; [reflexivity|].
  unfold LDR_getSmoothedLux. rewrite IH.
  replace (map (LDR_getCurrentLux (snd (smooth (LDR_getCurrentLux st raw) st))) rest)
    with (map (LDR_getCurrentLux st) rest); [reflexivity|].
  apply map_ext. intros r. symmetry. apply getCurrentLux_smooth.
Qed.

(** ** C9: initialisation and the wiring orientation *)

(** C9. [LDR_init] sets the wiring-orientation flag to [false] whatever the
    device argument and whatever the flag was: an orientation set with
    [LDR_setPhotocellPositionOnGround(true)] is lost by a later [LDR_init]. *)
Theorem LDR_init_discards_orientation (typeDevice : Z) (st : state) :
  _photocell_on_ground (LDR_init typeDevice st) = false /\
  _photocell_on_ground (LDR_setPhotocellPositionOnGround true st) = true /\
  _photocell_on_ground
    (LDR_init typeDevice (LDR_setPhotocellPositionOnGround true st)) = false.
Proof. repeat split. Qed.

(** ** C5: smoothing disabled *)

Lemma smooth_disabled lux st :
  _smoothing_history_size st = 0 -> smooth lux st = (lux, st).
Proof. intros Hsize. unfold smooth. rewrite Hsize. reflexivity. Qed.

Lemma smooth_all_disabled samples st :
  _smoothing_history_size st = 0 -> smooth_all samples st = (samples, st).
Proof.
  intros Hsize. induction samples as [|lux rest IH]; simpl; [reflexivity|].
  rewrite (smooth_disabled lux st Hsize). simpl. rewrite IH. reflexivity.
Qed.

(** C5. With a history capacity of 0, every [LDR_getSmoothedLux] call returns
    [LDR_getCurrentLux] of its input and leaves the variables as they were,
    along any sequence of inputs. *)
Theorem getSmoothedLux_disabled `{Platform} (st : state) (raws : list Z) :
  _smoothing_history_size st = 0 ->
  (forall raw, LDR_getSmoothedLux st raw = (LDR_getCurrentLux st raw, st)) /\
  getSmoothedLux_all raws st = (map (LDR_getCurrentLux st) raws, st).
Proof.
  intros Hsize. split.
  - intros raw. unfold LDR_getSmoothedLux. apply smooth_disabled, Hsize.
  - rewrite getSmoothedLux_all_samples. apply smooth_all_disabled, Hsize.
Qed.

Lemma getSmoothedLux_disabled_witness :
  _smoothing_history_size (calibrated false (F32.of_Z 120) (F32.of_Z 1) startup) = 0 /\
  @getSmoothedLux_all reference_platform [0; 2048; 4095; 4096]
      (calibrated false (F32.of_Z 120) (F32.of_Z 1) startup)
  = (map (@LDR_getCurrentLux reference_platform
            (calibrated false (F32.of_Z 120) (F32.of_Z 1) startup))
         [0; 2048; 4095; 4096],
     calibrated false (F32.of_Z 120) (F32.of_Z 1) startup).
Proof.
  split; [reflexivity|].
  apply (@getSmoothedLux_disabled reference_platform); reflexivity.
Defined.

(** ** C2: the averages of 10, 20, 30, 40 over a capacity of 3 *)

(** C2. From a freshly initialised buffer of capacity 3, four successive
    [LDR_getSmoothedLux] steps whose instantaneous lux samples are 10, 20, 30
    and 40 return 10, 15, 20 and 30: while filling the sum is divided by the
    number of samples so far, then by the capacity once the oldest is evicted. *)
Theorem getSmoothedLux_capacity3 `{Platform} (on_ground : bool)
    (mult_value pow_value : spec_float) (r1 r2 r3 r4 : Z) :
  LDR_getCurrentLux (calibrated on_ground mult_value pow_value (fresh 3)) r1 = F32.of_Z 10 ->
  LDR_getCurrentLux (calibrated on_ground mult_value pow_value (fresh 3)) r2 = F32.of_Z 20 ->
  LDR_getCurrentLux (calibrated on_ground mult_value pow_value (fresh 3)) r3 = F32.of_Z 30 ->
  LDR_getCurrentLux (calibrated on_ground mult_value pow_value (fresh 3)) r4 = F32.of_Z 40 ->
  fst (getSmoothedLux_all [r1; r2; r3; r4]
         (calibrated on_ground mult_value pow_value (fresh 3)))
  = [F32.of_Z 10; F32.of_Z 15; F32.of_Z 20; F32.of_Z 30].
Proof.
  intros H1 H2 H3 H4. rewrite getSmoothedLux_all_samples.
  cbn [map]. rewrite H1, H2, H3, H4. vm_compute. reflexivity.
Qed.

Lemma getSmoothedLux_capacity3_witness :
  fst (@getSmoothedLux_all reference_platform [4080; 4088; 4091; 4092]
         (calibrated false (F32.of_Z 120) (F32.of_Z 1) (fresh 3)))
  = [F32.of_Z 10; F32.of_Z 15; F32.of_Z 20; F32.of_Z 30].
Proof.
  apply (@getSmoothedLux_capacity3 reference_platform); vm_compute; reflexivity.
Defined.

(** ** C1: what a second initialisation leaves behind *)

Lemma LDR_init_sum typeDevice st :
  _smoothing_sum (LDR_init typeDevice st) = _smoothing_sum st.
Proof. reflexivity. Qed.

Lemma LDR_init_next typeDevice st :
  _smoothing_history_next (LDR_init typeDevice st) = _smoothing_history_next st.
Proof. reflexivity. Qed.

(** C1 (fails on the code). [LDR_init] marks the slots unfilled but keeps
    [_smoothing_sum] and [_smoothing_history_next].  After one smoothed read of
    10 lux, a second [LDR_init] and a read of 20 lux return 15, the average
    with the discarded sample, where the first read of a program that starts
    with 20 lux returns 20. *)
Theorem reinit_keeps_sum_and_index `{Platform} (typeDevice : Z) (on_ground : bool)
    (mult_value pow_value : spec_float) (r1 r2 : Z) :
  LDR_getCurrentLux (calibrated on_ground mult_value pow_value (LDR_init typeDevice startup)) r1
    = F32.of_Z 10 ->
  LDR_getCurrentLux (calibrated on_ground mult_value pow_value (LDR_init typeDevice startup)) r2
    = F32.of_Z 20 ->
  fst (LDR_getSmoothedLux
         (calibrated on_ground mult_value pow_value
            (LDR_init typeDevice
               (snd (LDR_getSmoothedLux
                       (calibrated on_ground mult_value pow_value
                          (LDR_init typeDevice startup)) r1)))) r2)
    = F32.of_Z 15 /\
  fst (LDR_getSmoothedLux
         (calibrated on_ground mult_value pow_value (LDR_init typeDevice startup)) r2)
    = F32.of_Z 20.
Proof.
  intros H1 H2. unfold LDR_getSmoothedLux.
  rewrite (getCurrentLux_calibration
             (calibrated on_ground mult_value pow_value (LDR_init typeDevice startup))
             (calibrated on_ground mult_value pow_value (LDR_init typeDevice _)) r2)
    by reflexivity.
  rewrite H1, H2. split; vm_compute; reflexivity.
Qed.

Lemma reinit_keeps_sum_and_index_witness :
  fst (@LDR_getSmoothedLux reference_platform
         (calibrated false (F32.of_Z 120) (F32.of_Z 1)
            (LDR_init GL5528
               (snd (@LDR_getSmoothedLux reference_platform
                       (calibrated false (F32.of_Z 120) (F32.of_Z 1)
                          (LDR_init GL5528 startup)) 4080)))) 4088)
    = F32.of_Z 15 /\
  fst (@LDR_getSmoothedLux reference_platform
         (calibrated false (F32.of_Z 120) (F32.of_Z 1) (LDR_init GL5528 startup)) 4088)
    = F32.of_Z 20.
Proof.
  apply (@reinit_keeps_sum_and_index reference_platform); vm_compute; reflexivity.
Defined.

(** ** C4, C8, C10: the raw value at and around full scale *)

Lemma reference_full_scale : @full_scale reference_platform = F64.of_Z 4096.
Proof. vm_compute. reflexivity. Qed.

Lemma In_consecutive count : forall from z,
  from <= z < from + Z.of_nat count -> In z (consecutive from count).
Proof.
  induction count as [|count IH]; intros from z Hz; [lia|].
  destruct (Z.eq_dec z from) as [->|Hne]; [left; reflexivity|].
  right. apply IH. lia.
Qed.

Lemma In_uint16_from from raw :
  from <= raw < UINT16_MOD -> In raw (uint16_from from).
Proof. intros Hraw. apply In_consecutive. lia. Qed.

(** The ratio depends on the platform through [pow(2, 12)] only. *)
Lemma guarded_raw_full_scale `{Platform} raw :
  full_scale = F64.of_Z 4096 -> guarded_raw raw = @guarded_raw full_scale_platform raw.
Proof. intros Hfs. unfold guarded_raw. rewrite Hfs. reflexivity. Qed.

Lemma ratio_full_scale `{Platform} raw :
  full_scale = F64.of_Z 4096 -> ratio raw = @ratio full_scale_platform raw.
Proof.
  intros Hfs. unfold ratio, ratio_divisor.
  rewrite (guarded_raw_full_scale raw Hfs), Hfs. reflexivity.
Qed.

(** The guard fires at 4096 and nowhere else on a [uint16_t]. *)
Lemma guard_fires_at_4096_only :
  forallb (fun raw => Z.eqb (@guarded_raw full_scale_platform raw)
                            (if raw =? 4096 then 4095 else raw))
          (uint16_from 0) = true.
Proof. vm_compute. reflexivity. Qed.

Lemma guarded_raw_uint16 `{Platform} raw :
  full_scale = F64.of_Z 4096 -> 0 <= raw < UINT16_MOD ->
  guarded_raw raw = if raw =? 4096 then 4095 else raw.
Proof.
  intros Hfs Hraw. rewrite (guarded_raw_full_scale raw Hfs).
  pose proof guard_fires_at_4096_only as Hall.
  rewrite forallb_forall in Hall.
  apply Z.eqb_eq, (Hall raw), In_uint16_from. lia.
Qed.

Lemma float_of_positive_uint16 :
  forallb (fun z => finite_nonzero (F32.of_Z z)) (uint16_from 1) = true.
Proof. vm_compute. reflexivity. Qed.

(** C4. When [pow(2, 12)] is 4096, a raw value equal to the full-scale code
    4096 is decremented before the ratio is computed: the divisor is 4095, not
    zero, and resistance and lux are those of the raw value 4095, for every
    calibration. *)
Theorem full_scale_as_one_below `{Platform} (st : state) :
  full_scale = F64.of_Z 4096 ->
  guarded_raw 4096 = 4095 /\
  ratio_divisor 4096 = F32.of_Z 4095 /\
  finite_nonzero (ratio_divisor 4096) = true /\
  ratio 4096 = ratio 4095 /\
  finite_nonzero (ratio 4096) = true /\
  photocell_resistor st 4096 = photocell_resistor st 4095 /\
  LDR_rawAnalogValueToLux st 4096 = LDR_rawAnalogValueToLux st 4095.
Proof.
  intros Hfs.
  assert (Hg : guarded_raw 4096 = 4095)
    by (rewrite (guarded_raw_uint16 _ Hfs); [reflexivity | vm_compute; intuition discriminate]).
  assert (Hg' : guarded_raw 4095 = 4095)
    by (rewrite (guarded_raw_uint16 _ Hfs); [reflexivity | vm_compute; intuition discriminate]).
  assert (Hr : ratio 4096 = ratio 4095)
    by (unfold ratio, ratio_divisor; rewrite Hg, Hg'; reflexivity).
  assert (Hp : photocell_resistor st 4096 = photocell_resistor st 4095)
    by (unfold photocell_resistor, divider; rewrite Hr; reflexivity).
  repeat split; try assumption.
  - unfold ratio_divisor. rewrite Hg. reflexivity.
  - unfold ratio_divisor. rewrite Hg. vm_compute. reflexivity.
  - rewrite (ratio_full_scale _ Hfs). vm_compute. reflexivity.
  - unfold LDR_rawAnalogValueToLux. rewrite Hp. reflexivity.
Qed.

Lemma full_scale_as_one_below_witness :
  @LDR_rawAnalogValueToLux reference_platform
     (calibrated true (F32.of_Z 120) (F32.of_Z 1) (LDR_init GL5528 startup)) 4096
  = @LDR_rawAnalogValueToLux reference_platform
     (calibrated true (F32.of_Z 120) (F32.of_Z 1) (LDR_init GL5528 startup)) 4095.
Proof.
  apply (@full_scale_as_one_below reference_platform). vm_compute. reflexivity.
Defined.

Lemma divider_of_zero `{Platform} st :
  full_scale = F64.of_Z 4096 ->
  divider st 0 = if _photocell_on_ground st then zero_f else S754_infinity false.
Proof.
  intros Hfs. unfold divider. rewrite (ratio_full_scale _ Hfs).
  destruct (_photocell_on_ground st); vm_compute; reflexivity.
Qed.

(** C8. The conversion does not validate its raw value.  When [pow(2, 12)] is
    4096: for every raw value from 1 up the divisor of the ratio is a non-zero
    finite number; for the raw value 0 the divisor is zero, the quotient and the
    ratio are [+infinity], and the function still returns the quotient of the
    multiplier by the power of whatever resistance comes out, as a [float]. *)
Theorem zero_raw_not_validated `{Platform} (st : state) :
  full_scale = F64.of_Z 4096 ->
  (forall raw, 1 <= raw < UINT16_MOD -> finite_nonzero (ratio_divisor raw) = true) /\
  ratio_divisor 0 = zero_f /\
  F32.div (F32.of_double full_scale) (ratio_divisor 0) = S754_infinity false /\
  ratio 0 = S754_infinity false /\
  LDR_rawAnalogValueToLux st 0
  = F32.div (_mult_value st)
      (F32.of_double
         (pow (F64.of_Z (if _photocell_on_ground st then 0
                         else ftoul_unrepresentable (S754_infinity false)))
              (F64.of_float (_pow_value st)))).
Proof.
  intros Hfs.
  assert (Hd0 : ratio_divisor 0 = zero_f)
    by (unfold ratio_divisor; rewrite (guarded_raw_full_scale _ Hfs);
        vm_compute; reflexivity).
  repeat split.
  - intros raw Hraw. unfold ratio_divisor.
    rewrite (guarded_raw_uint16 raw Hfs) by lia.
    pose proof float_of_positive_uint16 as Hall.
    rewrite forallb_forall in Hall. apply Hall, In_uint16_from.
    destruct (raw =? 4096); [vm_compute; intuition discriminate | lia].
  - exact Hd0.
  - rewrite Hd0, Hfs. vm_compute. reflexivity.
  - rewrite (ratio_full_scale _ Hfs). vm_compute. reflexivity.
  - unfold LDR_rawAnalogValueToLux, photocell_resistor, resistor_to_lux.
    rewrite (divider_of_zero st Hfs).
    destruct (_photocell_on_ground st); reflexivity.
Qed.

Lemma zero_raw_not_validated_witness :
  @ratio reference_platform 0 = S754_infinity false /\
  @LDR_rawAnalogValueToLux reference_platform
     (calibrated true (F32.of_Z 120) (F32.of_Z 1) (LDR_init GL5528 startup)) 0
  = S754_infinity false.
Proof.
  destruct (@zero_raw_not_validated reference_platform
              (calibrated true (F32.of_Z 120) (F32.of_Z 1) (LDR_init GL5528 startup))
              reference_full_scale) as (_ & _ & _ & Hratio & Hlux).
  split; [exact Hratio|]. rewrite Hlux. vm_compute. reflexivity.
Defined.

(** Over the raw values of a [uint16_t], with the photocell as the upper leg: a
    divider result in [0, 1) has the integer part 0. *)
Lemma sub_ohm_integer_part :
  forallb (fun raw =>
             let d := F32.mul (F32.of_Z OTHER_RESISTOR) (@ratio full_scale_platform raw) in
             implb (F32.ltb d (F32.of_Z 1) && negb (F32.ltb d zero_f))
                   (match truncate d with Some 0 => true | _ => false end))
          (uint16_from 0) = true.
Proof. vm_compute. reflexivity. Qed.

Lemma div_by_zero_not_finite x : infinite_or_nan (F32.div x zero_f) = true.
Proof. destruct x; reflexivity. Qed.

Lemma truncate_integer_part x z : truncate x = Some z <-> integer_part_of x z.
Proof.
  destruct x as [s|s| |s m e]; cbn [truncate integer_part_of].
  - split; [intros [= <-]; reflexivity | intros ->; reflexivity].
  - split; [discriminate | contradiction].
  - split; [discriminate | contradiction].
  - destruct e as [|p|p].
    + change (0 <=? 0) with true. rewrite Z.pow_0_r, Z.mul_1_r. split.
      * intros [= <-]. exists (Zpos m). repeat split; lia.
      * intros (k & -> & _ & ->). reflexivity.
    + change (0 <=? Zpos p) with true. split.
      * intros [= <-]. exists (Zpos m * 2 ^ Zpos p). repeat split. lia.
      * intros (k & -> & _ & ->). reflexivity.
    + change (0 <=? Zneg p) with false. change (- Zneg p) with (Zpos p).
      assert (Hpow : 0 < 2 ^ Zpos p) by (apply Z.pow_pos_nonneg; lia).
      split.
      * intros [= <-]. exists (Zpos m / 2 ^ Zpos p).
        split; [reflexivity|]. split; [apply Z.div_pos; lia|].
        pose proof (Z.mul_div_le (Zpos m) (2 ^ Zpos p) Hpow).
        pose proof (Z.mul_succ_div_gt (Zpos m) (2 ^ Zpos p) Hpow). lia.
      * intros (k & -> & Hk & Hlo & Hhi). f_equal. f_equal.
        symmetry. apply Z.div_unique with (Zpos m - k * 2 ^ Zpos p); lia.
Qed.

Lemma sub_ohm_resistor `{Platform} st raw :
  full_scale = F64.of_Z 4096 ->
  0 <= raw < UINT16_MOD ->
  _photocell_on_ground st = false ->
  F32.ltb (divider st raw) (F32.of_Z 1) = true ->
  F32.ltb (divider st raw) zero_f = false ->
  photocell_resistor st raw = 0.
Proof.
  intros Hfs Hraw Hleg Hlt Hge.
  unfold photocell_resistor, float_to_ulong.
  revert Hlt Hge. unfold divider. rewrite Hleg, (ratio_full_scale raw Hfs).
  intros Hlt Hge.
  pose proof sub_ohm_integer_part as Hall.
  rewrite forallb_forall in Hall.
  specialize (Hall raw (In_uint16_from 0 raw Hraw)). cbv zeta in Hall.
  rewrite Hlt, Hge in Hall. cbn [andb negb implb] in Hall.
  destruct (truncate _) as [[| |]|]; try discriminate Hall. reflexivity.
Qed.

(** C10 (as stated, fails on the code). With the exponent 0, for which [pow]
    gives 1 whatever the base, the raw value 4095 on the upper-leg wiring has a
    divider result below 1 ohm (0.806..) and the resistance 0, yet the lux
    returned is the multiplier over 1: the finite number 120, or [+0] with the
    variables as they are when the program starts. *)
Lemma zero_exponent_gives_finite_lux :
  F32.ltb (@divider reference_platform
             (calibrated false (F32.of_Z 120) (F32.of_Z 0) (LDR_init GL5528 startup)) 4095)
          (F32.of_Z 1) = true /\
  F32.ltb (@divider reference_platform
             (calibrated false (F32.of_Z 120) (F32.of_Z 0) (LDR_init GL5528 startup)) 4095)
          zero_f = false /\
  @photocell_resistor reference_platform
     (calibrated false (F32.of_Z 120) (F32.of_Z 0) (LDR_init GL5528 startup)) 4095 = 0 /\
  @LDR_rawAnalogValueToLux reference_platform
     (calibrated false (F32.of_Z 120) (F32.of_Z 0) (LDR_init GL5528 startup)) 4095
  = F32.of_Z 120 /\
  infinite_or_nan
    (@LDR_rawAnalogValueToLux reference_platform
       (calibrated false (F32.of_Z 120) (F32.of_Z 0) (LDR_init GL5528 startup)) 4095)
  = false /\
  @LDR_rawAnalogValueToLux reference_platform startup 4095 = zero_f.
Proof. vm_compute. repeat split; reflexivity. Qed.

(** C10 (amended). The resistance is stored in an [unsigned long] before the
    power law is applied: when the divider result has an integer part that an
    [unsigned long] holds, the resistance is that integer part, the fraction
    dropped; where it has none, the resistance is what the platform's
    conversion yields; and the lux is computed from the stored resistance.
    With the photocell as the upper leg, when the divider formula gives a
    resistance below 1 ohm the stored resistance is 0 and the lux is the
    multiplier over [pow(0, exponent)]; when that power is 0, as it is for
    every positive exponent, the lux is the multiplier divided by zero: an
    infinity or a NaN, not a finite value. *)
Theorem resistance_is_truncated `{Platform} (st : state) (raw : Z) :
  (forall z, integer_part_of (divider st raw) z -> 0 <= z < ULONG_MOD ->
             photocell_resistor st raw = z) /\
  ((forall z, integer_part_of (divider st raw) z -> ~ 0 <= z < ULONG_MOD) ->
   photocell_resistor st raw = ftoul_unrepresentable (divider st raw)) /\
  LDR_rawAnalogValueToLux st raw
  = F32.div (_mult_value st)
      (F32.of_double (pow (F64.of_Z (photocell_resistor st raw))
                          (F64.of_float (_pow_value st)))) /\
  (full_scale = F64.of_Z 4096 ->
   0 <= raw < UINT16_MOD ->
   _photocell_on_ground st = false ->
   F32.ltb (divider st raw) (F32.of_Z 1) = true ->
   F32.ltb (divider st raw) zero_f = false ->
   photocell_resistor st raw = 0 /\
   LDR_rawAnalogValueToLux st raw
   = F32.div (_mult_value st)
       (F32.of_double (pow (F64.of_Z 0) (F64.of_float (_pow_value st)))) /\
   (pow (F64.of_Z 0) (F64.of_float (_pow_value st)) = S754_zero false ->
    LDR_rawAnalogValueToLux st raw = F32.div (_mult_value st) zero_f /\
    infinite_or_nan (LDR_rawAnalogValueToLux st raw) = true)).
Proof.
  split; [|split; [|split]].
  - intros z Hz Hrange. apply truncate_integer_part in Hz.
    unfold photocell_resistor, float_to_ulong. rewrite Hz.
    destruct (0 <=? z) eqn:E1; [|apply Z.leb_gt in E1; lia].
    destruct (z <? ULONG_MOD) eqn:E2; [reflexivity | apply Z.ltb_ge in E2; lia].
  - intros Hnone. unfold photocell_resistor, float_to_ulong.
    destruct (truncate (divider st raw)) as [z|] eqn:Hz; [|reflexivity].
    apply truncate_integer_part in Hz. specialize (Hnone z Hz).
    destruct (0 <=? z) eqn:E1; [|reflexivity].
    destruct (z <? ULONG_MOD) eqn:E2; [|reflexivity].
    apply Z.leb_le in E1. apply Z.ltb_lt in E2. lia.
  - reflexivity.
  - intros Hfs Hraw Hleg Hlt Hge.
    pose proof (sub_ohm_resistor st raw Hfs Hraw Hleg Hlt Hge) as Hres.
    assert (Hlux : LDR_rawAnalogValueToLux st raw
                   = F32.div (_mult_value st)
                       (F32.of_double (pow (F64.of_Z 0) (F64.of_float (_pow_value st)))))
      by (unfold LDR_rawAnalogValueToLux, resistor_to_lux; rewrite Hres; reflexivity).
    split; [exact Hres|]. split; [exact Hlux|].
    intros Hpow. rewrite Hlux, Hpow. split; [reflexivity|].
    apply div_by_zero_not_finite.
Qed.

Lemma resistance_is_truncated_witness :
  @photocell_resistor reference_platform
     (calibrated false (F32.of_Z 120) (F32.of_Z 1) (LDR_init GL5528 startup)) 4080 = 12 /\
  @photocell_resistor reference_platform
     (calibrated false (F32.of_Z 120) (F32.of_Z 1) (LDR_init GL5528 startup)) 4095 = 0 /\
  @LDR_rawAnalogValueToLux reference_platform
     (calibrated false (F32.of_Z 120) (F32.of_Z 1) (LDR_init GL5528 startup)) 4095
  = S754_infinity false.
Proof.
  destruct (@resistance_is_truncated reference_platform
              (calibrated false (F32.of_Z 120) (F32.of_Z 1) (LDR_init GL5528 startup)) 4080)
    as (Hpart & _).
  destruct (@resistance_is_truncated reference_platform
              (calibrated false (F32.of_Z 120) (F32.of_Z 1) (LDR_init GL5528 startup)) 4095)
    as (_ & _ & _ & Hsub).
  destruct Hsub as (Hres & _ & Hzero);
    try (vm_compute; reflexivity); [vm_compute; intuition discriminate|].
  destruct Hzero as [Hlux _]; [vm_compute; reflexivity|].
  split; [|split; [exact Hres|]].
  - apply Hpart; [|vm_compute; intuition discriminate].
    apply (proj1 (truncate_integer_part _ 12)). vm_compute. reflexivity.
  - rewrite Hlux. vm_compute. reflexivity.
Defined.

(** ** C3: the running sum and the next-write index *)

Lemma mark_unfilled_app count : forall i before slots after,
  0 <= i -> length before = Z.to_nat i -> length slots = count ->
  mark_unfilled count i (before ++ slots ++ after)
  = before ++ replicate count minus_one_f ++ after.
Proof.
  induction count as [|count IH]; intros i before slots after Hi Hlen Hslots.
  - destruct slots; [reflexivity | discriminate].
  - destruct slots as [|slot slots]; [discriminate|].
    cbn [mark_unfilled]. unfold array_set. rewrite <- Hlen.
    replace (length before) with (length before + 0)%nat by lia.
    rewrite insert_app_r. cbn [app insert list_insert].
    change (before ++ minus_one_f :: slots ++ after)
      with (before ++ [minus_one_f] ++ slots ++ after).
    rewrite app_assoc. rewrite (IH (i + 1) (before ++ [minus_one_f]) slots after).
    + rewrite <- app_assoc. reflexivity.
    + lia.
    + rewrite length_app. cbn [length]. lia.
    + cbn [length] in Hslots. lia.
Qed.

Lemma unfilled_minus_one : unfilled minus_one_f = true.
Proof. vm_compute. reflexivity. Qed.

Lemma fresh_filling capacity :
  0 < capacity <= HISTORY_SLOTS ->
  filling (Z.to_nat capacity)
          (replicate (Z.to_nat (HISTORY_SLOTS - capacity)) zero_f) [] (fresh capacity).
Proof.
  intros Hcap. unfold HISTORY_SLOTS in *.
  assert (Hsize : (if 100 <? capacity mod UINT32_MOD then 100 else capacity mod UINT32_MOD)
                  = capacity).
  { rewrite Z.mod_small by (unfold UINT32_MOD; lia).
    destruct (100 <? capacity) eqn:E; [apply Z.ltb_lt in E; lia | reflexivity]. }
  unfold filling, fresh, LDR_init_with, HISTORY_SLOTS.
  cbn [_smoothing_history_size _smoothing_history_values _smoothing_history_next
       _smoothing_sum startup].
  rewrite Hsize. repeat split.
  - lia.
  - cbn [app length]. rewrite Nat.sub_0_r.
    replace (replicate (Z.to_nat HISTORY_SLOTS) zero_f)
      with ([] ++ replicate (Z.to_nat capacity) zero_f
               ++ replicate (Z.to_nat (100 - capacity)) zero_f).
    + apply mark_unfilled_app; [lia | reflexivity | apply length_replicate].
    + cbn [app]. rewrite <- replicate_add. f_equal. unfold HISTORY_SLOTS. lia.
  - cbn [length]. destruct (Z.of_nat 0 <? Z.of_nat (Z.to_nat capacity)); reflexivity.
Qed.

Lemma smooth_filling capacity rest samples lux st :
  (length samples < capacity)%nat -> Z.of_nat capacity < UINT32_MOD ->
  filling capacity rest samples st ->
  filling capacity rest (samples ++ [lux]) (snd (smooth lux st)) /\
  fst (smooth lux st)
  = F32.div (foldl F32.add zero_f (samples ++ [lux]))
            (F32.of_Z (if (Z.of_nat (length samples) <? Z.of_nat capacity - 1)
                       then Z.of_nat (length samples) + 1 else Z.of_nat capacity)).
Proof.
  intros Hlen Hcap (Hsize & Hvalues & Hnext & Hsum).
  assert (Hlt : (Z.of_nat (length samples) <? Z.of_nat capacity) = true)
    by (apply Z.ltb_lt; lia).
  rewrite Hlt in Hnext.
  assert (Hslot : array_get (_smoothing_history_values st) (_smoothing_history_next st)
                  = minus_one_f).
  { unfold array_get. rewrite Hvalues, Hnext, Nat2Z.id.
    rewrite lookup_app_r by lia. rewrite Nat.sub_diag.
    destruct (capacity - length samples)%nat eqn:E; [lia | reflexivity]. }
  assert (Hwritten : array_set (_smoothing_history_values st) (_smoothing_history_next st) lux
                     = (samples ++ [lux])
                         ++ replicate (capacity - length (samples ++ [lux])) minus_one_f
                         ++ rest).
  { unfold array_set. rewrite Hvalues, Hnext, Nat2Z.id.
    replace (length samples) with (length samples + 0)%nat at 1 by lia.
    rewrite insert_app_r, length_app. cbn [length].
    destruct (capacity - length samples)%nat eqn:E; [lia|].
    replace (capacity - (length samples + 1))%nat with n by lia.
    cbn [replicate app insert list_insert]. rewrite <- app_assoc. reflexivity. }
  assert (Hread : array_get ((samples ++ [lux])
                         ++ replicate (capacity - length (samples ++ [lux])) minus_one_f
                         ++ rest) (_smoothing_history_next st) = lux).
  { unfold array_get. rewrite Hnext, Nat2Z.id, <- app_assoc.
    rewrite lookup_app_r by lia. rewrite Nat.sub_diag. reflexivity. }
  unfold smooth. rewrite Hsize.
  destruct (Z.of_nat capacity =? 0) eqn:E0; [apply Z.eqb_eq in E0; lia|].
  rewrite Hslot. change (F32.ltb minus_one_f minus_tenth_f) with (unfilled minus_one_f).
  rewrite unfilled_minus_one, Hwritten, Hread, Hsum, Hnext.
  rewrite <- foldl_snoc.
  rewrite (Z.mod_small (Z.of_nat capacity - 1)) by lia.
  destruct (Z.of_nat (length samples) <? Z.of_nat capacity - 1) eqn:E.
  - apply Z.ltb_lt in E. rewrite Z.mod_small by lia. split; [|reflexivity].
    unfold filling, with_smoothing.
    cbn [snd _smoothing_history_size _smoothing_history_values _smoothing_history_next _smoothing_sum].
    rewrite !length_app. cbn [length].
    repeat split; try assumption.
    + destruct (Z.of_nat (length samples + 1) <? Z.of_nat capacity) eqn:E'; [lia|].
      apply Z.ltb_ge in E'. lia.
  - apply Z.ltb_ge in E. split; [|reflexivity].
    unfold filling, with_smoothing.
    cbn [snd _smoothing_history_size _smoothing_history_values _smoothing_history_next _smoothing_sum].
    rewrite !length_app. cbn [length].
    repeat split; try assumption.
    + destruct (Z.of_nat (length samples + 1) <? Z.of_nat capacity) eqn:E'; [|reflexivity].
      apply Z.ltb_lt in E'. lia.
Qed.

Lemma smooth_all_filling capacity rest more : forall samples st,
  (length samples + length more <= capacity)%nat -> Z.of_nat capacity < UINT32_MOD ->
  filling capacity rest samples st ->
  filling capacity rest (samples ++ more) (snd (smooth_all more st)).
Proof.
  induction more as [|lux more IH]; intros samples st Hlen Hcap Hfill.
  - rewrite app_nil_r. exact Hfill.
  - cbn [smooth_all snd length] in *.
    replace (samples ++ lux :: more) with ((samples ++ [lux]) ++ more)
      by (rewrite <- app_assoc; reflexivity).
    apply IH; [rewrite length_app; cbn [length]; lia | exact Hcap |].
    apply smooth_filling; [lia | exact Hcap | exact Hfill].
Qed.

Lemma filling_history_sum capacity rest samples st :
  (length samples <= capacity)%nat ->
  Forall (fun lux => unfilled lux = false) samples ->
  filling capacity rest samples st ->
  history st = samples ++ replicate (capacity - length samples) minus_one_f /\
  _smoothing_sum st = history_sum st.
Proof.
  intros Hlen Hsamples (Hsize & Hvalues & _ & Hsum).
  assert (Hhist : history st = samples ++ replicate (capacity - length samples) minus_one_f).
  { unfold history. rewrite Hsize, Hvalues, Nat2Z.id, app_assoc.
    apply take_app_length'. rewrite length_app, length_replicate. lia. }
  split; [exact Hhist|].
  unfold history_sum. rewrite Hhist, filter_app, Hsum.
  replace (filter (fun v => unfilled v = false)
             (replicate (capacity - length samples) minus_one_f)) with (@nil spec_float).
  - rewrite app_nil_r. f_equal. symmetry.
    clear -Hsamples. induction Hsamples as [|x xs Hx _ IH]; [reflexivity|].
    rewrite filter_cons_True by exact Hx. f_equal. exact IH.
  - symmetry. generalize (capacity - length samples)%nat. clear.
    intros n. induction n as [|n IH]; [reflexivity|].
    cbn [replicate]. rewrite filter_cons_False; [exact IH|].
    rewrite unfilled_minus_one. discriminate.
Qed.

Lemma smooth_index_in_range lux st :
  0 < _smoothing_history_size st < UINT32_MOD ->
  index_in_range st -> index_in_range (snd (smooth lux st)).
Proof.
  unfold index_in_range. intros Hsize Hidx.
  pose proof (smooth_size lux st) as Hsz. revert Hsz.
  unfold smooth. rewrite !(Z.mod_small (_ - 1)) by lia.
  destruct (_smoothing_history_size st =? 0) eqn:E0; [apply Z.eqb_eq in E0; lia|].
  destruct (F32.ltb _ _);
    destruct (_smoothing_history_next st <? _smoothing_history_size st - 1) eqn:E;
    cbn [snd with_smoothing _smoothing_history_size _smoothing_history_next];
    intros _; try lia;
    apply Z.ltb_lt in E; rewrite Z.mod_small; lia.
Qed.

Lemma smooth_all_index_in_range samples : forall st,
  0 < _smoothing_history_size st < UINT32_MOD ->
  index_in_range st -> index_in_range (snd (smooth_all samples st)).
Proof.
  induction samples as [|lux rest IH]; intros st Hsize Hidx; [exact Hidx|].
  cbn [smooth_all snd]. apply IH.
  - rewrite smooth_size. exact Hsize.
  - apply smooth_index_in_range; assumption.
Qed.

(** C3 (as stated, fails on the code). After the raw values 4094, 1, 1 on a
    buffer of capacity 2 (multiplier 32017200, exponent 1: samples 32017200,
    2.369.., 2.369..) the two slots hold 2.369.. each, yet the running sum is
    4.369..: adding the second sample to 32017200 rounded to 32017202, and the
    eviction of the first then left 2, not 2.369... *)
Lemma running_sum_drifts :
  history (snd (@getSmoothedLux_all reference_platform [4094; 1; 1]
                  (calibrated false (F32.of_Z 32017200) (F32.of_Z 1) (fresh 2))))
  = [S754_finite false 9937460 (-22); S754_finite false 9937460 (-22)] /\
  history_sum (snd (@getSmoothedLux_all reference_platform [4094; 1; 1]
                      (calibrated false (F32.of_Z 32017200) (F32.of_Z 1) (fresh 2))))
  = S754_finite false 9937460 (-21) /\
  _smoothing_sum (snd (@getSmoothedLux_all reference_platform [4094; 1; 1]
                         (calibrated false (F32.of_Z 32017200) (F32.of_Z 1) (fresh 2))))
  = S754_finite false 9163034 (-21) /\
  _smoothing_sum (snd (@getSmoothedLux_all reference_platform [4094; 1; 1]
                         (calibrated false (F32.of_Z 32017200) (F32.of_Z 1) (fresh 2))))
  <> history_sum (snd (@getSmoothedLux_all reference_platform [4094; 1; 1]
                         (calibrated false (F32.of_Z 32017200) (F32.of_Z 1) (fresh 2)))).
Proof. vm_compute. repeat split; discriminate. Qed.

(** C3 (amended). From a freshly initialised buffer, after any sequence of
    [LDR_getSmoothedLux] steps the next-write index lies in [0, capacity), and
    every step preserves that.  While the buffer fills (no more samples than
    the capacity, none of them below the threshold that marks an unfilled slot)
    the running sum is the [float] sum, in index order, of the written slots. *)
Theorem index_in_range_and_filling_sum `{Platform} (capacity : Z) (on_ground : bool)
    (mult_value pow_value : spec_float) (raws : list Z) :
  0 < capacity <= HISTORY_SLOTS ->
  index_in_range
    (snd (getSmoothedLux_all raws (calibrated on_ground mult_value pow_value (fresh capacity)))) /\
  (forall st raw,
     0 < _smoothing_history_size st < UINT32_MOD ->
     index_in_range st -> index_in_range (snd (LDR_getSmoothedLux st raw))) /\
  (Z.of_nat (length raws) <= capacity ->
   Forall (fun raw =>
             unfilled (LDR_getCurrentLux
                         (calibrated on_ground mult_value pow_value (fresh capacity)) raw)
             = false) raws ->
   _smoothing_sum
     (snd (getSmoothedLux_all raws (calibrated on_ground mult_value pow_value (fresh capacity))))
   = history_sum
       (snd (getSmoothedLux_all raws (calibrated on_ground mult_value pow_value (fresh capacity))))).
Proof.
  intros Hcap.
  pose proof (fresh_filling capacity Hcap) as Hfresh.
  assert (Hstart : filling (Z.to_nat capacity)
                     (replicate (Z.to_nat (HISTORY_SLOTS - capacity)) zero_f) []
                     (calibrated on_ground mult_value pow_value (fresh capacity)))
    by exact Hfresh.
  destruct Hstart as (Hsize & Hvalues & Hnext & Hsum).
  rewrite getSmoothedLux_all_samples. unfold HISTORY_SLOTS, UINT32_MOD in *.
  split; [|split].
  - apply smooth_all_index_in_range; unfold index_in_range, UINT32_MOD.
    + rewrite Hsize. lia.
    + rewrite Hsize, Hnext. cbn [length]. destruct (_ <? _); lia.
  - intros st raw. apply smooth_index_in_range.
  - intros Hlen Hfilled.
    eapply filling_history_sum; cycle 2.
    + apply (smooth_all_filling (Z.to_nat capacity) _ _ []).
      * rewrite length_map. cbn [length]. lia.
      * unfold UINT32_MOD. lia.
      * exact Hfresh.
    + cbn [app]. rewrite length_map. lia.
    + cbn [app]. apply Forall_map. exact Hfilled.
Qed.

Lemma index_in_range_and_filling_sum_witness :
  index_in_range
    (snd (@getSmoothedLux_all reference_platform [4080; 4088; 4091]
            (calibrated false (F32.of_Z 120) (F32.of_Z 1) (fresh 3)))) /\
  _smoothing_sum
    (snd (@getSmoothedLux_all reference_platform [4080; 4088; 4091]
            (calibrated false (F32.of_Z 120) (F32.of_Z 1) (fresh 3))))
  = history_sum
      (snd (@getSmoothedLux_all reference_platform [4080; 4088; 4091]
              (calibrated false (F32.of_Z 120) (F32.of_Z 1) (fresh 3)))).
Proof.
  destruct (@index_in_range_and_filling_sum reference_platform 3 false
              (F32.of_Z 120) (F32.of_Z 1) [4080; 4088; 4091])
    as (Hidx & _ & Hsum); [vm_compute; intuition discriminate|].
  split; [exact Hidx|]. apply Hsum; [vm_compute; discriminate|].
  repeat constructor.
Defined.

(** ** Every program stays inside the history array *)

Lemma mark_unfilled_length count : forall i values,
  length (mark_unfilled count i values) = length values.
Proof.
  induction count as [|count IH]; intros i values; [reflexivity|].
  cbn [mark_unfilled]. rewrite IH. unfold array_set. apply length_insert.
Qed.

Lemma mark_unfilled_above count : forall i values (j : nat),
  0 <= i -> (Z.to_nat i + count <= j)%nat ->
  mark_unfilled count i values !! j = values !! j.
Proof.
  induction count as [|count IH]; intros i values j Hi Hj; [reflexivity|].
  cbn [mark_unfilled]. rewrite IH by lia.
  unfold array_set. apply list_lookup_insert_ne. lia.
Qed.

Lemma smooth_values_length lux st :
  length (_smoothing_history_values (snd (smooth lux st)))
  = length (_smoothing_history_values st).
Proof.
  unfold smooth, array_set. repeat case_match; cbn [snd with_smoothing _smoothing_history_values];
    rewrite ?length_insert; reflexivity.
Qed.

Lemma smooth_other_slots lux st (j : nat) :
  j <> Z.to_nat (_smoothing_history_next st) ->
  _smoothing_history_values (snd (smooth lux st)) !! j
  = _smoothing_history_values st !! j.
Proof.
  intros Hj. unfold smooth, array_set.
  repeat case_match; cbn [snd with_smoothing _smoothing_history_values];
    rewrite ?list_lookup_insert_ne by lia; reflexivity.
Qed.

Lemma smooth_within_bounds lux st :
  within_bounds st -> within_bounds (snd (smooth lux st)).
Proof.
  unfold within_bounds, SMOOTHING_HISTORY_SIZE, HISTORY_SLOTS.
  intros (Hlen & Hsize & Hnext & Hrest).
  rewrite smooth_values_length, smooth_size. repeat split; try assumption.
  - unfold smooth. destruct Hsize as [-> | ->]; cbn [Z.eqb]; [exact (proj1 Hnext)|].
    repeat case_match; cbn [snd with_smoothing _smoothing_history_next]; try lia;
      rewrite Z.mod_small; unfold UINT32_MOD; lia.
  - unfold smooth. destruct Hsize as [-> | ->]; cbn [Z.eqb]; [exact (proj2 Hnext)|].
    change ((10 - 1) `mod` UINT32_MOD) with 9.
    repeat case_match; cbn [snd with_smoothing _smoothing_history_next]; try lia;
      rewrite Z.mod_small; unfold UINT32_MOD; lia.
  - intros i Hi. rewrite smooth_other_slots by lia. apply Hrest, Hi.
Qed.

Lemma LDR_init_within_bounds typeDevice st :
  within_bounds st -> within_bounds (LDR_init typeDevice st).
Proof.
  unfold within_bounds, SMOOTHING_HISTORY_SIZE, HISTORY_SLOTS.
  intros (Hlen & Hsize & Hnext & Hrest).
  unfold LDR_init, LDR_init_with, SMOOTHING_HISTORY_SIZE, HISTORY_SLOTS.
  cbn [_smoothing_history_values _smoothing_history_size _smoothing_history_next].
  change (if 100 <? 10 `mod` UINT32_MOD then 100 else 10 `mod` UINT32_MOD) with 10.
  rewrite mark_unfilled_length. split; [exact Hlen|]. split; [right; reflexivity|].
  split; [exact Hnext|].
  intros i Hi. rewrite mark_unfilled_above by lia. apply Hrest, Hi.
Qed.

Lemma do_call_within_bounds `{Platform} c st :
  within_bounds st -> within_bounds (snd (do_call c st)).
Proof.
  intros Hst. destruct c; cbn [do_call snd]; try exact Hst.
  - apply LDR_init_within_bounds, Hst.
  - apply smooth_within_bounds, Hst.
  - apply smooth_within_bounds, Hst.
Qed.

Lemma startup_within_bounds : within_bounds startup.
Proof.
  unfold within_bounds, SMOOTHING_HISTORY_SIZE, HISTORY_SLOTS.
  cbn [startup _smoothing_history_values _smoothing_history_size _smoothing_history_next].
  split; [apply length_replicate|]. split; [left; reflexivity|]. split; [lia|].
  intros i Hi. apply lookup_replicate_2. unfold HISTORY_SLOTS. lia.
Qed.

Lemma run_within_bounds `{Platform} program : forall st,
  within_bounds st -> within_bounds (snd (run program st)).
Proof.
  induction program as [|c rest IH]; intros st Hst; [exact Hst|].
  cbn [run snd]. apply IH, do_call_within_bounds, Hst.
Qed.

(** X1. Whatever sequence of calls a program makes from its start, the
    smoothing variables stay inside the array: it keeps its 100 slots, the
    capacity is 0 or 10, the next-write index is below 10, so that every
    [_smoothing_history_values[_smoothing_history_next]] of
    [LDR_getSmoothedLux] is inside the array, and the slots from 10 on are
    never written. *)
Theorem programs_stay_within_bounds `{Platform} (program : list call) :
  within_bounds (snd (run program startup)) /\
  (Z.to_nat (_smoothing_history_next (snd (run program startup)))
   < length (_smoothing_history_values (snd (run program startup))))%nat.
Proof.
  pose proof (run_within_bounds program startup startup_within_bounds) as Hend.
  split; [exact Hend|].
  destruct Hend as (Hlen & _ & Hnext & _). rewrite Hlen.
  unfold SMOOTHING_HISTORY_SIZE, HISTORY_SLOTS in *. lia.
Qed.

(** ** A running sum that is NaN stays NaN *)

Lemma smooth_nan_sum lux st :
  _smoothing_sum st = S754_nan -> _smoothing_history_size st <> 0 ->
  _smoothing_sum (snd (smooth lux st)) = S754_nan /\ fst (smooth lux st) = S754_nan.
Proof.
  intros Hsum Hsize. unfold smooth. rewrite Hsum.
  destruct (_smoothing_history_size st =? 0) eqn:E; [apply Z.eqb_eq in E; contradiction|].
  repeat case_match; split; reflexivity.
Qed.

Lemma do_call_nan_sum `{Platform} c st :
  _smoothing_sum st = S754_nan -> _smoothing_history_size st <> 0 ->
  _smoothing_sum (snd (do_call c st)) = S754_nan /\
  _smoothing_history_size (snd (do_call c st)) <> 0 /\
  (smoothed_read c = true -> fst (do_call c st) = Some S754_nan).
Proof.
  intros Hsum Hsize.
  destruct c; cbn [do_call fst snd smoothed_read];
    try (repeat split; [assumption | assumption | discriminate]).
  - repeat split; [exact Hsum | discriminate | discriminate].
  - unfold LDR_getSmoothedLux.
    destruct (smooth_nan_sum (LDR_getCurrentLux st rawAnalogValue) st Hsum Hsize) as [Hs Hr].
    rewrite smooth_size, Hr. repeat split; assumption.
  - unfold LDR_getSmoothedFootCandles, LDR_getSmoothedLux. cbn [fst snd].
    destruct (smooth_nan_sum (LDR_getCurrentLux st rawAnalogValue) st Hsum Hsize) as [Hs Hr].
    rewrite smooth_size, Hr. repeat split; assumption.
Qed.

(** X2. Once the running sum is NaN and smoothing is enabled, no sequence of
    calls brings it back: the sum is still NaN at the end, [LDR_init] included,
    and every [LDR_getSmoothedLux] and [LDR_getSmoothedFootCandles] on the way
    returns NaN. *)
Theorem nan_sum_is_permanent `{Platform} (program : list call) (st : state) :
  _smoothing_sum st = S754_nan ->
  _smoothing_history_size st <> 0 ->
  _smoothing_sum (snd (run program st)) = S754_nan /\
  Forall2 (fun c out => smoothed_read c = true -> out = Some S754_nan)
          program (fst (run program st)).
Proof.
  revert st. induction program as [|c rest IH]; intros st Hsum Hsize.
  - split; [exact Hsum | constructor].
  - destruct (do_call_nan_sum c st Hsum Hsize) as (Hsum' & Hsize' & Hout).
    destruct (IH _ Hsum' Hsize') as [Hend Houts].
    cbn [run fst snd]. split; [exact Hend|]. constructor; assumption.
Qed.

Lemma nan_sum_is_permanent_witness :
  _smoothing_sum
    (snd (@run reference_platform
            [GetSmoothedLux 2048; Init GL5539; GetSmoothedFootCandles 100]
            (snd (smooth S754_nan (LDR_init GL5528 startup))))) = S754_nan /\
  Forall2 (fun c out => smoothed_read c = true -> out = Some S754_nan)
    [GetSmoothedLux 2048; Init GL5539; GetSmoothedFootCandles 100]
    (fst (@run reference_platform
            [GetSmoothedLux 2048; Init GL5539; GetSmoothedFootCandles 100]
            (snd (smooth S754_nan (LDR_init GL5528 startup))))).
Proof.
  apply (@nan_sum_is_permanent reference_platform); [reflexivity | discriminate].
Defined.

Lemma array_get_set values i v :
  0 <= i -> (Z.to_nat i < length values)%nat -> array_get (array_set values i v) i = v.
Proof.
  intros Hi Hlen. unfold array_get, array_set.
  rewrite list_lookup_insert_eq by exact Hlen. reflexivity.
Qed.

Lemma add_nan_r x : F32.add x S754_nan = S754_nan.
Proof. destruct x; reflexivity. Qed.

Lemma smooth_nan_sample st :
  _smoothing_history_size st <> 0 ->
  0 <= _smoothing_history_next st ->
  (Z.to_nat (_smoothing_history_next st) < length (_smoothing_history_values st))%nat ->
  _smoothing_sum (snd (smooth S754_nan st)) = S754_nan /\
  fst (smooth S754_nan st) = S754_nan.
Proof.
  intros Hsize Hnext Hlen. unfold smooth.
  destruct (_smoothing_history_size st =? 0) eqn:E; [apply Z.eqb_eq in E; contradiction|].
  rewrite (array_get_set _ _ _ Hnext Hlen), !add_nan_r.
  repeat case_match; split; reflexivity.
Qed.

Lemma smooth_evicts_infinity lux st :
  _smoothing_history_size st <> 0 ->
  array_get (_smoothing_history_values st) (_smoothing_history_next st)
    = S754_infinity false ->
  _smoothing_sum st = S754_infinity false ->
  _smoothing_sum (snd (smooth lux st)) = S754_nan /\ fst (smooth lux st) = S754_nan.
Proof.
  intros Hsize Hslot Hsum. unfold smooth.
  destruct (_smoothing_history_size st =? 0) eqn:E; [apply Z.eqb_eq in E; contradiction|].
  rewrite Hslot, Hsum.
  change (F32.ltb (S754_infinity false) minus_tenth_f) with false.
  change (F32.sub (S754_infinity false) (S754_infinity false)) with S754_nan.
  split; reflexivity.
Qed.

(** X3. How the running sum becomes NaN, in any state a program reaches with
    smoothing enabled: by a read whose lux sample is NaN, or by a read that
    evicts a slot holding [+infinity] while the sum is [+infinity] (the sample
    that raw value 4095 gives).  The read itself returns NaN. *)
Theorem nan_enters_the_sum `{Platform} (program : list call) (raw : Z) :
  _smoothing_history_size (snd (run program startup)) <> 0 ->
  LDR_getCurrentLux (snd (run program startup)) raw = S754_nan \/
  (array_get (_smoothing_history_values (snd (run program startup)))
             (_smoothing_history_next (snd (run program startup)))
     = S754_infinity false /\
   _smoothing_sum (snd (run program startup)) = S754_infinity false) ->
  fst (LDR_getSmoothedLux (snd (run program startup)) raw) = S754_nan /\
  _smoothing_sum (snd (LDR_getSmoothedLux (snd (run program startup)) raw)) = S754_nan.
Proof.
  intros Hsize Hcase.
  destruct (run_within_bounds program startup startup_within_bounds)
    as (Hlen & _ & Hnext & _).
  assert (Hin : (Z.to_nat (_smoothing_history_next (snd (run program startup)))
                 < length (_smoothing_history_values (snd (run program startup))))%nat)
    by (rewrite Hlen; unfold SMOOTHING_HISTORY_SIZE, HISTORY_SLOTS in *; lia).
  unfold LDR_getSmoothedLux. destruct Hcase as [Hnan | [Hslot Hsum]].
  - rewrite Hnan.
    destruct (smooth_nan_sample _ Hsize (proj1 Hnext) Hin) as [Hs Hr].
    split; assumption.
  - destruct (smooth_evicts_infinity (LDR_getCurrentLux (snd (run program startup)) raw)
                _ Hsize Hslot Hsum) as [Hs Hr].
    split; assumption.
Qed.

Lemma nan_enters_the_sum_witness :
  fst (@LDR_getSmoothedLux reference_platform
         (snd (@run reference_platform
                 [Init GL5528; UpdatePhotocellParameters S754_nan (F32.of_Z 1)] startup))
         2048) = S754_nan /\
  fst (@LDR_getSmoothedLux reference_platform
         (snd (@run reference_platform
                 ([Init GL5528; UpdatePhotocellParameters (F32.of_Z 120) (F32.of_Z 1);
                   GetSmoothedLux 4095] ++ replicate 9 (GetSmoothedLux 4080)) startup))
         4080) = S754_nan.
Proof.
  split.
  - apply (@nan_enters_the_sum reference_platform
             [Init GL5528; UpdatePhotocellParameters S754_nan (F32.of_Z 1)] 2048).
    + discriminate.
    + left. vm_compute. reflexivity.
  - apply (@nan_enters_the_sum reference_platform
             ([Init GL5528; UpdatePhotocellParameters (F32.of_Z 120) (F32.of_Z 1);
               GetSmoothedLux 4095] ++ replicate 9 (GetSmoothedLux 4080)) 4080).
    + vm_compute. discriminate.
    + right. vm_compute. split; reflexivity.
Defined.

(** ** The reads while the buffer fills *)

Lemma smooth_all_filling_averages capacity rest more : forall samples st,
  (length samples + length more <= capacity)%nat -> Z.of_nat capacity < UINT32_MOD ->
  filling capacity rest samples st ->
  fst (smooth_all more st)
  = map (fun k => F32.div (foldl F32.add zero_f (take k (samples ++ more)))
                          (F32.of_Z (Z.of_nat k)))
        (seq (S (length samples)) (length more)).
Proof.
  induction more as [|lux more IH]; intros samples st Hlen Hcap Hfill; [reflexivity|].
  cbn [length] in Hlen.
  destruct (smooth_filling capacity rest samples lux st) as [Hfill' Hout];
    [lia | exact Hcap | exact Hfill |].
  cbn [smooth_all fst snd length seq map]. f_equal.
  - rewrite Hout. f_equal.
    + f_equal. replace (samples ++ lux :: more) with ((samples ++ [lux]) ++ more)
        by (rewrite <- app_assoc; reflexivity).
      symmetry. apply take_app_length'. rewrite length_app. cbn [length]. lia.
    + f_equal. destruct (Z.of_nat (length samples) <? Z.of_nat capacity - 1) eqn:E; [lia|].
      apply Z.ltb_ge in E. lia.
  - rewrite (IH (samples ++ [lux]) _); [| rewrite length_app; cbn [length]; lia
                                        | exact Hcap | exact Hfill'].
    rewrite length_app, <- app_assoc. cbn [length app].
    replace (length samples + 1)%nat with (S (length samples)) by lia. reflexivity.
Qed.

(** X4. From a freshly initialised buffer, as long as no more samples have come
    than the capacity holds, the k-th [LDR_getSmoothedLux] returns the [float]
    sum of the first k lux samples (added in order, from 0) divided by k. *)
Theorem filling_reads_average_the_samples_so_far `{Platform} (capacity : Z)
    (on_ground : bool) (mult_value pow_value : spec_float) (raws : list Z) :
  0 < capacity <= HISTORY_SLOTS ->
  Z.of_nat (length raws) <= capacity ->
  fst (getSmoothedLux_all raws (calibrated on_ground mult_value pow_value (fresh capacity)))
  = map (fun k =>
           F32.div
             (foldl F32.add zero_f
                (take k (map (LDR_getCurrentLux
                                (calibrated on_ground mult_value pow_value (fresh capacity)))
                             raws)))
             (F32.of_Z (Z.of_nat k)))
        (seq 1 (length raws)).
Proof.
  intros Hcap Hlen. rewrite getSmoothedLux_all_samples.
  rewrite (smooth_all_filling_averages (Z.to_nat capacity)
             (replicate (Z.to_nat (HISTORY_SLOTS - capacity)) zero_f) _ []).
  - rewrite length_map. reflexivity.
  - rewrite length_map. cbn [length]. lia.
  - unfold HISTORY_SLOTS, UINT32_MOD in *. lia.
  - exact (fresh_filling capacity Hcap).
Qed.

Lemma filling_reads_average_the_samples_so_far_witness :
  fst (@getSmoothedLux_all reference_platform [4080; 4088; 4091]
         (calibrated false (F32.of_Z 120) (F32.of_Z 1) (fresh 5)))
  = [F32.of_Z 10; F32.of_Z 15; F32.of_Z 20].
Proof.
  rewrite (@filling_reads_average_the_samples_so_far reference_platform 5 false
             (F32.of_Z 120) (F32.of_Z 1) [4080; 4088; 4091]).
  - vm_compute. reflexivity.
  - vm_compute. intuition discriminate.
  - vm_compute. discriminate.
Defined.

(** ** The reads once the buffer is full *)

Lemma ring_write {A} (slots : list A) (i : nat) (o x : A) (window : list A) :
  (i < length slots)%nat ->
  drop i slots ++ take i slots = o :: window ->
  slots !! i = Some o /\
  (if decide (S i < length slots)%nat
   then drop (S i) (<[i:=x]> slots) ++ take (S i) (<[i:=x]> slots)
   else <[i:=x]> slots) = window ++ [x].
Proof.
  intros Hi Hring.
  destruct (drop i slots) as [|o' after] eqn:Hdrop.
  { apply (f_equal length) in Hdrop. rewrite length_drop in Hdrop. cbn in Hdrop. lia. }
  cbn [app] in Hring. injection Hring as -> Hwindow.
  assert (Hslots : slots = take i slots ++ o :: after)
    by (rewrite <- Hdrop; symmetry; apply take_drop).
  assert (Hlen : length (take i slots) = i) by (rewrite length_take; lia).
  set (before := take i slots) in *. clearbody before. subst slots window i.
  assert (Hwrite : <[length before := x]> (before ++ o :: after) = before ++ x :: after).
  { rewrite insert_app_r_alt by lia. rewrite Nat.sub_diag. reflexivity. }
  split; [apply list_lookup_middle; reflexivity|].
  rewrite Hwrite, !length_app. cbn [length].
  destruct (decide (S (length before) < length before + S (length after))%nat) as [Hlt|Hge].
  - replace (S (length before)) with (length before + 1)%nat by lia.
    rewrite drop_app_add, take_app_add. cbn [drop take].
    rewrite drop_0, take_0, <- app_assoc. reflexivity.
  - destruct after as [|? ?]; [reflexivity | cbn [length] in Hge; lia].
Qed.

Lemma smooth_steady capacity rest evicted window lux st :
  Z.of_nat capacity < UINT32_MOD ->
  steady capacity rest (evicted :: window) st ->
  unfilled evicted = false ->
  steady capacity rest (window ++ [lux]) (snd (smooth lux st)) /\
  _smoothing_sum (snd (smooth lux st))
    = F32.add (F32.sub (_smoothing_sum st) evicted) lux /\
  fst (smooth lux st)
    = F32.div (F32.add (F32.sub (_smoothing_sum st) evicted) lux)
              (F32.of_Z (Z.of_nat capacity)).
Proof.
  intros Hcap (Hsize & Hlen & Hrest & Hnext & Hring) Hfilled.
  unfold oldest_first, history in Hring. rewrite Hsize, Nat2Z.id in Hring.
  set (i := Z.to_nat (_smoothing_history_next st)) in *.
  assert (Hi : (i < capacity)%nat) by lia.
  assert (Htake : length (take capacity (_smoothing_history_values st)) = capacity)
    by (rewrite length_take; lia).
  destruct (ring_write (take capacity (_smoothing_history_values st)) i evicted lux window)
    as [Hslot Hring']; [lia | exact Hring |].
  rewrite lookup_take_lt in Hslot by exact Hi. rewrite Htake in Hring'.
  assert (Hget : array_get (_smoothing_history_values st) (_smoothing_history_next st)
                 = evicted) by (unfold array_get; fold i; rewrite Hslot; reflexivity).
  unfold smooth. rewrite Hsize.
  destruct (Z.of_nat capacity =? 0) eqn:E0; [apply Z.eqb_eq in E0; lia|].
  rewrite Hget. change (F32.ltb evicted minus_tenth_f) with (unfilled evicted).
  rewrite Hfilled, array_get_set by lia.
  rewrite (Z.mod_small (Z.of_nat capacity - 1)) by lia.
  cbn [fst snd with_smoothing _smoothing_sum]. split; [|split; reflexivity].
  unfold steady, oldest_first, history, array_set.
  cbn [with_smoothing _smoothing_history_size _smoothing_history_values
       _smoothing_history_next]. fold i.
  rewrite Hsize, Nat2Z.id, length_insert, drop_insert_lt, take_insert_lt by exact Hi.
  split; [reflexivity|]. split; [exact Hlen|]. split; [exact Hrest|].
  destruct (_smoothing_history_next st <? Z.of_nat capacity - 1) eqn:E.
  - apply Z.ltb_lt in E. rewrite Z.mod_small by lia. split; [lia|].
    replace (Z.to_nat (_smoothing_history_next st + 1)) with (S i) by lia.
    destruct (decide (S i < capacity)%nat); [exact Hring' | lia].
  - apply Z.ltb_ge in E. split; [lia|].
    destruct (decide (S i < capacity)%nat); [lia|].
    cbn [Z.to_nat drop take]. rewrite app_nil_r. exact Hring'.
Qed.

Lemma filling_full_is_steady capacity rest samples st :
  (0 < capacity)%nat -> length samples = capacity ->
  filling capacity rest samples st -> steady capacity rest samples st.
Proof.
  intros Hpos Hlen (Hsize & Hvalues & Hnext & _).
  rewrite Hlen, Nat.sub_diag in Hvalues. cbn [replicate app] in Hvalues.
  rewrite Hlen, Z.ltb_irrefl in Hnext.
  unfold steady, oldest_first, history. rewrite Hsize, Hvalues, Hnext, Nat2Z.id.
  split; [reflexivity|]. split; [rewrite length_app; lia|].
  split; [apply drop_app_length'; lia|]. split; [lia|].
  cbn [Z.to_nat drop take]. rewrite app_nil_r. apply take_app_length'. lia.
Qed.

Lemma steady_window_length capacity rest window st :
  steady capacity rest window st -> length window = capacity.
Proof.
  intros (Hsize & Hlen & _ & Hnext & Hring). subst window.
  unfold oldest_first, history. rewrite Hsize, Nat2Z.id.
  rewrite length_app, length_drop, !length_take. lia.
Qed.

Lemma smooth_all_steady capacity rest more : forall window st,
  Z.of_nat capacity < UINT32_MOD ->
  steady capacity rest window st ->
  Forall (fun lux => unfilled lux = false) window ->
  Forall (fun lux => unfilled lux = false) more ->
  steady capacity rest (drop (length more) (window ++ more)) (snd (smooth_all more st)).
Proof.
  induction more as [|lux more IH]; intros window st Hcap Hsteady Hwindow Hmore.
  - rewrite app_nil_r. exact Hsteady.
  - pose proof (steady_window_length _ _ _ _ Hsteady) as Hlen.
    pose proof Hsteady as (_ & _ & _ & Hnext & _).
    destruct window as [|evicted window]; [cbn [length] in Hlen; lia|].
    apply Forall_cons in Hwindow as [Hevicted Hwindow].
    apply Forall_cons in Hmore as [Hlux Hmore].
    destruct (smooth_steady capacity rest evicted window lux st Hcap Hsteady Hevicted)
      as (Hsteady' & _ & _).
    cbn [smooth_all snd length app drop].
    replace (window ++ lux :: more) with ((window ++ [lux]) ++ more)
      by (rewrite <- app_assoc; reflexivity).
    apply IH; [exact Hcap | exact Hsteady' | | exact Hmore].
    apply Forall_app. split; [exact Hwindow | repeat constructor; exact Hlux].
Qed.

Lemma smooth_all_app first : forall more st,
  snd (smooth_all (first ++ more) st) = snd (smooth_all more (snd (smooth_all first st))).
Proof.
  induction first as [|lux first IH]; intros more st; [reflexivity|].
  cbn [app smooth_all snd]. apply IH.
Qed.

Lemma getCurrentLux_smooth_all `{Platform} samples : forall st raw,
  LDR_getCurrentLux (snd (smooth_all samples st)) raw = LDR_getCurrentLux st raw.
Proof.
  induction samples as [|lux samples IH]; intros st raw; [reflexivity|].
  cbn [smooth_all snd]. rewrite IH. apply getCurrentLux_smooth.
Qed.

Lemma fresh_run_is_steady capacity rest samples st :
  0 < capacity <= HISTORY_SLOTS ->
  filling (Z.to_nat capacity) rest [] st ->
  capacity <= Z.of_nat (length samples) ->
  Forall (fun lux => unfilled lux = false) samples ->
  steady (Z.to_nat capacity) rest
         (drop (length samples - Z.to_nat capacity) samples)
         (snd (smooth_all samples st)).
Proof.
  intros Hcap Hfresh Hlen Hfilled.
  assert (Hcap32 : Z.of_nat (Z.to_nat capacity) < UINT32_MOD)
    by (unfold HISTORY_SLOTS, UINT32_MOD in *; lia).
  assert (Hfirst : length (take (Z.to_nat capacity) samples) = Z.to_nat capacity)
    by (rewrite length_take; lia).
  assert (Hmore : length (drop (Z.to_nat capacity) samples)
                  = (length samples - Z.to_nat capacity)%nat) by apply length_drop.
  pose proof (Forall_take _ (Z.to_nat capacity) _ Hfilled) as Hfilled1.
  pose proof (Forall_drop _ (Z.to_nat capacity) _ Hfilled) as Hfilled2.
  rewrite <- Hmore. clear Hmore Hlen Hfilled.
  rewrite <- (take_drop (Z.to_nat capacity) samples) at 2 3.
  set (first := take (Z.to_nat capacity) samples) in *.
  set (more := drop (Z.to_nat capacity) samples) in *.
  rewrite smooth_all_app.
  apply smooth_all_steady; [exact Hcap32 | | exact Hfilled1 | exact Hfilled2].
  apply filling_full_is_steady; [lia | exact Hfirst |].
  apply (smooth_all_filling (Z.to_nat capacity) _ _ []);
    [change (0 + length first <= Z.to_nat capacity)%nat; lia | exact Hcap32
    | exact Hfresh].
Qed.

(** X5. Once at least as many samples have come as the capacity holds (none of
    them below the threshold that marks an unfilled slot), the history is a
    ring of the most recent samples: read round from the next-write index it
    is the last [capacity] samples, oldest first.  The next read evicts the
    sample that came [capacity] reads before: it returns
    [(sum - evicted + new) / capacity], computed in [float] in that order. *)
Theorem steady_reads_evict_the_oldest `{Platform} (capacity : Z) (on_ground : bool)
    (mult_value pow_value : spec_float) (raws : list Z) (raw : Z) (evicted : spec_float) :
  0 < capacity <= HISTORY_SLOTS ->
  capacity <= Z.of_nat (length raws) ->
  Forall (fun r =>
            unfilled (LDR_getCurrentLux
                        (calibrated on_ground mult_value pow_value (fresh capacity)) r)
            = false) raws ->
  map (LDR_getCurrentLux (calibrated on_ground mult_value pow_value (fresh capacity))) raws
    !! (length raws - Z.to_nat capacity)%nat = Some evicted ->
  oldest_first
    (snd (getSmoothedLux_all raws
            (calibrated on_ground mult_value pow_value (fresh capacity))))
  = drop (length raws - Z.to_nat capacity)
      (map (LDR_getCurrentLux (calibrated on_ground mult_value pow_value (fresh capacity)))
           raws) /\
  fst (LDR_getSmoothedLux
         (snd (getSmoothedLux_all raws
                 (calibrated on_ground mult_value pow_value (fresh capacity)))) raw)
  = F32.div
      (F32.add
         (F32.sub
            (_smoothing_sum
               (snd (getSmoothedLux_all raws
                       (calibrated on_ground mult_value pow_value (fresh capacity)))))
            evicted)
         (LDR_getCurrentLux
            (calibrated on_ground mult_value pow_value (fresh capacity)) raw))
      (F32.of_Z capacity).
Proof.
  intros Hcap Hlen Hfilled Hevicted.
  rewrite getSmoothedLux_all_samples.
  set (st0 := calibrated on_ground mult_value pow_value (fresh capacity)) in *.
  set (samples := map (LDR_getCurrentLux st0) raws) in *.
  assert (Hsteady : steady (Z.to_nat capacity)
                      (replicate (Z.to_nat (HISTORY_SLOTS - capacity)) zero_f)
                      (drop (length raws - Z.to_nat capacity) samples)
                      (snd (smooth_all samples st0))).
  { replace (length raws) with (length samples) by apply length_map.
    apply (fresh_run_is_steady capacity _ samples st0 Hcap (fresh_filling capacity Hcap)).
    - unfold samples. rewrite length_map. exact Hlen.
    - apply Forall_map. exact Hfilled. }
  split; [exact (proj2 (proj2 (proj2 (proj2 Hsteady))))|].
  unfold LDR_getSmoothedLux. rewrite getCurrentLux_smooth_all.
  rewrite (drop_S _ _ _ Hevicted) in Hsteady.
  assert (Hcap32 : Z.of_nat (Z.to_nat capacity) < UINT32_MOD)
    by (unfold HISTORY_SLOTS, UINT32_MOD in *; lia).
  destruct (smooth_steady _ _ _ _ (LDR_getCurrentLux st0 raw) _ Hcap32 Hsteady)
    as (_ & _ & Hout).
  - assert (Hall : Forall (fun lux => unfilled lux = false) samples)
      by (apply Forall_map; exact Hfilled).
    rewrite Forall_lookup in Hall. exact (Hall _ _ Hevicted).
  - rewrite Hout, Z2Nat.id by lia. reflexivity.
Qed.

Lemma steady_reads_evict_the_oldest_witness :
  oldest_first
    (snd (@getSmoothedLux_all reference_platform [4080; 4088; 4091; 4092]
            (calibrated false (F32.of_Z 120) (F32.of_Z 1) (fresh 3))))
  = [F32.of_Z 20; F32.of_Z 30; F32.of_Z 40] /\
  fst (@LDR_getSmoothedLux reference_platform
         (snd (@getSmoothedLux_all reference_platform [4080; 4088; 4091; 4092]
                 (calibrated false (F32.of_Z 120) (F32.of_Z 1) (fresh 3)))) 4080)
  = F32.div (F32.of_Z 80) (F32.of_Z 3).
Proof.
  destruct (@steady_reads_evict_the_oldest reference_platform 3 false
              (F32.of_Z 120) (F32.of_Z 1) [4080; 4088; 4091; 4092] 4080 (F32.of_Z 20))
    as [Hring Hread].
  - vm_compute. intuition discriminate.
  - vm_compute. discriminate.
  - repeat constructor.
  - vm_compute. reflexivity.
  - rewrite Hring, Hread. split; vm_compute; reflexivity.
Defined.

(** ** What a smoothed read leaves alone *)

(** X6. [LDR_getSmoothedLux] writes the running sum, the next-write index and
    the one slot at that index, and nothing else: multiplier, exponent,
    orientation and capacity stay, the array keeps its length, every other
    slot keeps its value, and the instantaneous lux of any raw value is the
    same before and after.  [LDR_getSmoothedFootCandles] leaves the variables
    in the same state as [LDR_getSmoothedLux] does. *)
Theorem getSmoothedLux_frame `{Platform} (st : state) (raw : Z) :
  _mult_value (snd (LDR_getSmoothedLux st raw)) = _mult_value st /\
  _pow_value (snd (LDR_getSmoothedLux st raw)) = _pow_value st /\
  _photocell_on_ground (snd (LDR_getSmoothedLux st raw)) = _photocell_on_ground st /\
  _smoothing_history_size (snd (LDR_getSmoothedLux st raw)) = _smoothing_history_size st /\
  length (_smoothing_history_values (snd (LDR_getSmoothedLux st raw)))
    = length (_smoothing_history_values st) /\
  (forall j : nat,
     j <> Z.to_nat (_smoothing_history_next st) ->
     _smoothing_history_values (snd (LDR_getSmoothedLux st raw)) !! j
     = _smoothing_history_values st !! j) /\
  (forall r, LDR_getCurrentLux (snd (LDR_getSmoothedLux st raw)) r = LDR_getCurrentLux st r) /\
  snd (LDR_getSmoothedFootCandles st raw) = snd (LDR_getSmoothedLux st raw).
Proof.
  unfold LDR_getSmoothedFootCandles, LDR_getSmoothedLux. cbn [snd].
  split; [apply smooth_mult|]. split; [apply smooth_pow|].
  split; [apply smooth_on_ground|]. split; [apply smooth_size|].
  split; [apply smooth_values_length|].
  split; [intros j Hj; apply smooth_other_slots, Hj|].
  split; [intros r; apply getCurrentLux_smooth | reflexivity].
Qed.

(** ** What [LDR_init] does to the history, and what it overrides *)

Lemma mark_unfilled_lookup count : forall i values (j : nat),
  0 <= i ->
  mark_unfilled count i values !! j
  = if decide (Z.to_nat i <= j < Z.to_nat i + count)%nat
    then (fun _ => minus_one_f) <$> values !! j
    else values !! j.
Proof.
  induction count as [|count IH]; intros i values j Hi.
  - cbn [mark_unfilled]. destruct (decide _); [lia | reflexivity].
  - cbn [mark_unfilled]. rewrite IH by lia. unfold array_set.
    replace (Z.to_nat (i + 1)) with (S (Z.to_nat i)) by lia.
    destruct (decide (Z.to_nat i = j)) as [<-|Hne].
    + destruct (decide (S (Z.to_nat i) <= Z.to_nat i < _)%nat); [lia|].
      destruct (decide (Z.to_nat i <= Z.to_nat i < _)%nat); [|lia].
      destruct (values !! Z.to_nat i) eqn:E.
      * rewrite list_lookup_insert_eq by (apply lookup_lt_Some in E; exact E). reflexivity.
      * rewrite list_insert_ge by (apply lookup_ge_None in E; exact E).
        rewrite E. reflexivity.
    + rewrite list_lookup_insert_ne by exact Hne.
      destruct (decide (S (Z.to_nat i) <= j < _)%nat);
        destruct (decide (Z.to_nat i <= j < _)%nat); try lia; reflexivity.
Qed.

Lemma mark_unfilled_twice count values :
  mark_unfilled count 0 (mark_unfilled count 0 values) = mark_unfilled count 0 values.
Proof.
  apply list_eq. intros j. rewrite !mark_unfilled_lookup by lia.
  destruct (decide _); [|reflexivity].
  destruct (values !! j); reflexivity.
Qed.

(** X7. [LDR_init] sets the capacity to 10 whatever it was, marks the first 10
    slots unfilled ([-1.0f]) and leaves the other 90 as they were; more
    generally, for any value of the macro [SMOOTHING_HISTORY_SIZE] that fits
    [uint32_t], the capacity is that value clamped to the 100 slots of the
    array, and exactly the slots below the capacity are marked. *)
Theorem LDR_init_marks_the_slots (history_size typeDevice : Z) (st : state) (j : nat) :
  0 <= history_size < UINT32_MOD ->
  length (_smoothing_history_values st) = Z.to_nat HISTORY_SLOTS ->
  _smoothing_history_size (LDR_init_with history_size typeDevice st)
    = Z.min history_size HISTORY_SLOTS /\
  _smoothing_history_size (LDR_init typeDevice st) = 10 /\
  length (_smoothing_history_values (LDR_init_with history_size typeDevice st))
    = Z.to_nat HISTORY_SLOTS /\
  (Z.of_nat j < Z.min history_size HISTORY_SLOTS ->
   _smoothing_history_values (LDR_init_with history_size typeDevice st) !! j
   = Some minus_one_f) /\
  (Z.min history_size HISTORY_SLOTS <= Z.of_nat j ->
   _smoothing_history_values (LDR_init_with history_size typeDevice st) !! j
   = _smoothing_history_values st !! j).
Proof.
  intros Hsize Hlen.
  unfold LDR_init, LDR_init_with, SMOOTHING_HISTORY_SIZE.
  cbn [_smoothing_history_size _smoothing_history_values].
  rewrite Z.mod_small by exact Hsize.
  assert (Hclamp : (if HISTORY_SLOTS <? history_size then HISTORY_SLOTS else history_size)
                   = Z.min history_size HISTORY_SLOTS).
  { destruct (HISTORY_SLOTS <? history_size) eqn:E;
      [apply Z.ltb_lt in E | apply Z.ltb_ge in E]; lia. }
  rewrite Hclamp, mark_unfilled_length.
  split; [reflexivity|]. split; [reflexivity|]. split; [exact Hlen|].
  split; intros Hj; rewrite mark_unfilled_lookup by lia.
  - destruct (decide _); [|lia].
    destruct (_smoothing_history_values st !! j) eqn:E; [reflexivity|].
    apply lookup_ge_None in E. unfold HISTORY_SLOTS in *. lia.
  - destruct (decide _); [lia | reflexivity].
Qed.

Lemma LDR_init_marks_the_slots_witness :
  _smoothing_history_size (LDR_init_with 250 GL5539 startup) = 100 /\
  _smoothing_history_values (LDR_init_with 250 GL5539 startup) !! 99%nat = Some minus_one_f.
Proof.
  destruct (LDR_init_marks_the_slots 250 GL5539 startup 99)
    as (Hsize & _ & _ & Hbelow & _); [vm_compute; intuition discriminate | reflexivity |].
  split; [exact Hsize|]. apply Hbelow. vm_compute. reflexivity.
Defined.

(** X8. The last [LDR_init] wins: applied after another [LDR_init] (for any
    device), after [LDR_updatePhotocellParameters] or after
    [LDR_setPhotocellPositionOnGround], it gives the variables it gives without
    that earlier call; in particular it is idempotent. *)
Theorem LDR_init_overrides_configuration (typeDevice earlier : Z) (on_ground : bool)
    (mult_value pow_value : spec_float) (st : state) :
  LDR_init typeDevice (LDR_init earlier st) = LDR_init typeDevice st /\
  LDR_init typeDevice (LDR_updatePhotocellParameters mult_value pow_value st)
    = LDR_init typeDevice st /\
  LDR_init typeDevice (LDR_setPhotocellPositionOnGround on_ground st)
    = LDR_init typeDevice st.
Proof.
  split; [|split; reflexivity].
  unfold LDR_init, LDR_init_with.
  cbn [_smoothing_sum _smoothing_history_next _smoothing_history_values].
  f_equal. apply mark_unfilled_twice.
Qed.

(** ** The unit conversions keep the sign and make no NaN *)

Section RoundingShape.
Variables prec emax : Z.

Lemma shr_1_nonneg mrs : 0 <= shr_m mrs -> 0 <= shr_m (shr_1 mrs).
Proof.
  destruct mrs as [m r s]. cbn [shr_m]. intros Hm.
  destruct m as [|p|p]; [cbn; lia| |lia].
  destruct p; cbn; lia.
Qed.

Lemma iter_shr_1_nonneg p : forall mrs,
  0 <= shr_m mrs -> 0 <= shr_m (SpecFloat.iter_pos shr_1 p mrs).
Proof.
  induction p as [p IH|p IH|]; intros mrs Hm; cbn [SpecFloat.iter_pos].
  - apply IH, IH, shr_1_nonneg, Hm.
  - apply IH, IH, Hm.
  - apply shr_1_nonneg, Hm.
Qed.

Lemma shr_fexp_nonneg m e l :
  0 <= m -> 0 <= shr_m (fst (shr_fexp prec emax m e l)).
Proof.
  intros Hm. unfold shr_fexp, shr.
  assert (H0 : 0 <= shr_m (shr_record_of_loc m l)) by (destruct l as [|[| |]]; exact Hm).
  destruct (fexp prec emax (Zdigits2 m + e) - e); cbn [fst]; try exact H0.
  apply iter_shr_1_nonneg, H0.
Qed.

Lemma round_nearest_even_nonneg m l : 0 <= m -> 0 <= round_nearest_even m l.
Proof.
  intros Hm. unfold round_nearest_even.
  destruct l as [|[| |]]; try destruct (Z.even m); lia.
Qed.

Lemma binary_round_aux_sign sx mx ex lx :
  0 <= mx -> sign_of (binary_round_aux prec emax sx mx ex lx) = Some sx.
Proof.
  intros Hm. unfold binary_round_aux.
  pose proof (shr_fexp_nonneg mx ex lx Hm) as H1.
  destruct (shr_fexp prec emax mx ex lx) as [mrs' e']. cbn [fst] in H1.
  pose proof (shr_fexp_nonneg _ e' loc_Exact
                (round_nearest_even_nonneg _ (loc_of_shr_record mrs') H1)) as H2.
  destruct (shr_fexp prec emax _ e' loc_Exact) as [mrs'' e'']. cbn [fst] in H2.
  destruct (shr_m mrs'') as [|m|m]; [reflexivity | | lia].
  destruct (e'' <=? emax - prec); reflexivity.
Qed.

Lemma binary_round_sign sx mx ex :
  sign_of (binary_round prec emax sx mx ex) = Some sx.
Proof.
  unfold binary_round. destruct (shl_align _ _ _) as [mz ez].
  apply binary_round_aux_sign. lia.
Qed.

Lemma binary_normalize_sign s m e :
  sign_of (binary_normalize prec emax (cond_Zopp s (Zpos m)) e s) = Some s.
Proof. destruct s; cbn; apply binary_round_sign. Qed.

Lemma SFmul_sign x y sx sy :
  sign_of x = Some sx -> sign_of y = Some sy ->
  (forall s, x = S754_infinity s -> forall s', y <> S754_zero s') ->
  (forall s, x = S754_zero s -> forall s', y <> S754_infinity s') ->
  sign_of (SFmul prec emax x y) = Some (xorb sx sy).
Proof.
  intros Hx Hy Hinf Hzero.
  destruct x as [s|s| |s m e]; destruct y as [s'|s'| |s' m' e'];
    cbn in Hx, Hy; try discriminate; injection Hx as <-; injection Hy as <-;
    try reflexivity.
  - exfalso. exact (Hzero s eq_refl s' eq_refl).
  - exfalso. exact (Hinf s eq_refl s' eq_refl).
  - cbn [SFmul]. apply binary_round_aux_sign. lia.
Qed.

Lemma SFdiv_sign x sx sy my ey :
  sign_of x = Some sx ->
  sign_of (SFdiv prec emax x (S754_finite sy my ey)) = Some (xorb sx sy).
Proof.
  intros Hx. destruct x as [s|s| |s m e]; cbn in Hx; try discriminate;
    injection Hx as <-; try reflexivity.
  cbn [SFdiv]. unfold SFdiv_core_binary.
  set (m' := match _ - _ - _ with Z0 => Zpos m | Zpos _ => _ | Zneg _ => 0 end).
  assert (Hm' : 0 <= m').
  { unfold m'. destruct (_ - _ - _); [lia | apply Z.shiftl_nonneg; lia | lia]. }
  pose proof (Z.div_eucl_eq m' (Zpos my) ltac:(lia)) as Heq.
  pose proof (Z.mod_pos_bound m' (Zpos my) ltac:(lia)) as Hmod.
  pose proof (Z.div_pos m' (Zpos my) Hm' ltac:(lia)) as Hq.
  unfold Z.modulo, Z.div in *.
  destruct (Z.div_eucl m' (Zpos my)) as [q r]. cbn [fst snd] in *.
  apply binary_round_aux_sign. exact Hq.
Qed.

End RoundingShape.

Lemma of_float_sign x : sign_of (F64.of_float x) = sign_of x.
Proof. destruct x; try reflexivity. apply binary_normalize_sign. Qed.

Lemma of_double_sign x : sign_of (F32.of_double x) = sign_of x.
Proof. destruct x; try reflexivity. apply binary_normalize_sign. Qed.

Lemma lux_per_footcandle_value :
  lux_per_footcandle = S754_finite false 6059593298627002 (-49).
Proof. vm_compute. reflexivity. Qed.

Lemma luxToFootCandles_sign x : sign_of (LDR_luxToFootCandles x) = sign_of x.
Proof.
  unfold LDR_luxToFootCandles.
  rewrite of_double_sign, lux_per_footcandle_value.
  pose proof (of_float_sign x) as Hx.
  destruct (sign_of x) as [s|] eqn:Hs.
  - unfold F64.div. rewrite (SFdiv_sign _ _ _ s false _ _ Hx). destruct s; reflexivity.
  - destruct x; try discriminate Hs. reflexivity.
Qed.

Lemma footCandlesToLux_sign x : sign_of (LDR_footCandlesToLux x) = sign_of x.
Proof.
  unfold LDR_footCandlesToLux.
  rewrite of_double_sign, lux_per_footcandle_value.
  pose proof (of_float_sign x) as Hx.
  destruct (sign_of x) as [s|] eqn:Hs.
  - unfold F64.mul.
    rewrite (SFmul_sign F64.prec F64.emax (S754_finite false 6059593298627002 (-49))
               (F64.of_float x) false s eq_refl Hx);
      [reflexivity | discriminate | discriminate].
  - destruct x; try discriminate Hs. reflexivity.
Qed.

(** X9. Both unit conversions keep the sign of their argument and return NaN
    for NaN only: zeros, numbers and infinities of either sign give a zero, a
    number or an infinity of the same sign, whatever the rounding, underflow or
    overflow on the way. *)
Theorem unit_conversions_keep_the_sign (x : spec_float) :
  sign_of (LDR_luxToFootCandles x) = sign_of x /\
  sign_of (LDR_footCandlesToLux x) = sign_of x.
Proof. split; [apply luxToFootCandles_sign | apply footCandlesToLux_sign]. Qed.

(** ** Lux readings are not negative *)

Lemma SFdiv_finite_sign prec emax sx mx ex y sy :
  sign_of y = Some sy ->
  sign_of (SFdiv prec emax (S754_finite sx mx ex) y) = Some (xorb sx sy).
Proof.
  intros Hy. destruct y as [s|s| |s m e]; cbn in Hy; try discriminate;
    injection Hy as <-; try reflexivity.
  apply (SFdiv_sign prec emax (S754_finite sx mx ex) sx s m e). reflexivity.
Qed.

Lemma positive_is_filled x : sign_of x = Some false -> unfilled x = false.
Proof. destruct x as [[|]|[|]| |[|] m e]; intros Hx; try discriminate Hx; reflexivity. Qed.

Lemma preset_multiplier_positive typeDevice :
  exists m e, fst (preset typeDevice) = S754_finite false m e.
Proof.
  unfold preset. repeat case_match; cbn [fst]; vm_compute; eauto.
Qed.

(** X10. With a multiplier that is a positive number (as every preset's is,
    so after any [LDR_init]), whenever [pow] returns a number that is not
    negative the lux reading is a number that is not negative: a zero, a
    positive number or [+infinity], never NaN.  Such a reading is never taken
    for an unfilled slot of the history. *)
Theorem lux_is_not_negative `{Platform} (st : state) (raw : Z) (m : positive) (e : Z) :
  _mult_value st = S754_finite false m e ->
  sign_of (pow (F64.of_Z (photocell_resistor st raw)) (F64.of_float (_pow_value st)))
    = Some false ->
  sign_of (LDR_getCurrentLux st raw) = Some false /\
  unfilled (LDR_getCurrentLux st raw) = false /\
  sign_of (LDR_getCurrentFootCandles st raw) = Some false /\
  (forall typeDevice st', exists m' e',
     _mult_value (LDR_init typeDevice st') = S754_finite false m' e').
Proof.
  intros Hmult Hpow.
  assert (Hlux : sign_of (LDR_getCurrentLux st raw) = Some false).
  { unfold LDR_getCurrentLux, LDR_rawAnalogValueToLux, resistor_to_lux, F32.div.
    rewrite Hmult. rewrite (SFdiv_finite_sign _ _ false m e _ false); [reflexivity|].
    rewrite of_double_sign. exact Hpow. }
  split; [exact Hlux|]. split; [apply positive_is_filled, Hlux|].
  split.
  - unfold LDR_getCurrentFootCandles.
    rewrite luxToFootCandles_sign. exact Hlux.
  - intros typeDevice st'. apply preset_multiplier_positive.
Qed.

Lemma lux_is_not_negative_witness :
  sign_of (@LDR_getCurrentLux reference_platform
             (calibrated true (F32.of_Z 120) (F32.of_Z 1) (LDR_init GL5528 startup)) 0)
  = Some false /\
  unfilled (@LDR_getCurrentLux reference_platform
              (calibrated true (F32.of_Z 120) (F32.of_Z 1) (LDR_init GL5528 startup)) 0)
  = false.
Proof.
  destruct (@lux_is_not_negative reference_platform
              (calibrated true (F32.of_Z 120) (F32.of_Z 1) (LDR_init GL5528 startup)) 0
              15728640 (-17)) as (Hsign & Hfilled & _);
    [vm_compute; reflexivity | vm_compute; reflexivity |].
  split; assumption.
Defined.

(** ** The resistance over the range of the ADC *)

Lemma adc_resistor_steps :
  forallb (fun raw =>
             (0 <=? adc_resistor false (raw + 1))
             && (adc_resistor false (raw + 1) <=? adc_resistor false raw)
             && (adc_resistor false raw <=? 13513500)
             && (0 <=? adc_resistor true raw)
             && (adc_resistor true raw <=? adc_resistor true (raw + 1))
             && (adc_resistor true (raw + 1) <=? 13513500))
          (consecutive 1 4095) = true.
Proof. vm_compute. reflexivity. Qed.

Lemma adc_resistor_step raw :
  1 <= raw <= 4095 ->
  0 <= adc_resistor false (raw + 1) <= adc_resistor false raw /\
  adc_resistor false raw <= 13513500 /\
  0 <= adc_resistor true raw <= adc_resistor true (raw + 1) /\
  adc_resistor true (raw + 1) <= 13513500.
Proof.
  intros Hraw. pose proof adc_resistor_steps as Hall.
  rewrite forallb_forall in Hall.
  specialize (Hall raw (In_consecutive 4095 1 raw ltac:(lia))).
  cbv beta in Hall. rewrite !andb_true_iff, !Z.leb_le in Hall. lia.
Qed.

Lemma adc_resistor_monotone n : forall raw,
  1 <= raw -> raw + Z.of_nat n <= 4096 ->
  adc_resistor false (raw + Z.of_nat n) <= adc_resistor false raw /\
  adc_resistor true raw <= adc_resistor true (raw + Z.of_nat n).
Proof.
  induction n as [|n IH]; intros raw Hlo Hhi.
  - rewrite Z.add_0_r. lia.
  - destruct (IH raw Hlo ltac:(lia)) as [Hup Hgnd].
    pose proof (adc_resistor_step (raw + Z.of_nat n) ltac:(lia)) as Hstep.
    replace (raw + Z.of_nat (S n)) with (raw + Z.of_nat n + 1) by lia. lia.
Qed.

Lemma adc_resistor_range on_ground raw :
  1 <= raw <= 4096 -> 0 <= adc_resistor on_ground raw <= 13513500.
Proof.
  intros Hraw. destruct (Z.eq_dec raw 4096) as [->|Hne].
  - pose proof (adc_resistor_step 4095 ltac:(lia)) as Hstep.
    change (4095 + 1) with 4096 in Hstep.
    pose proof (adc_resistor_monotone 4095 1 ltac:(lia) ltac:(lia)) as Hmono.
    change (1 + Z.of_nat 4095) with 4096 in Hmono.
    pose proof (adc_resistor_step 1 ltac:(lia)) as Hone.
    destruct on_ground; lia.
  - pose proof (adc_resistor_step raw ltac:(lia)) as Hstep.
    pose proof (adc_resistor_monotone (Z.to_nat (raw - 1)) 1 ltac:(lia) ltac:(lia)) as Hmono.
    replace (1 + Z.of_nat (Z.to_nat (raw - 1))) with raw in Hmono by lia.
    pose proof (adc_resistor_step 1 ltac:(lia)) as Hone.
    destruct on_ground; lia.
Qed.

Lemma photocell_resistor_adc `{Platform} st raw :
  full_scale = F64.of_Z 4096 ->
  0 <= adc_resistor (_photocell_on_ground st) raw ->
  truncate (divider st raw) = Some (photocell_resistor st raw) /\
  photocell_resistor st raw = adc_resistor (_photocell_on_ground st) raw.
Proof.
  intros Hfs. unfold photocell_resistor, float_to_ulong, adc_resistor, divider.
  rewrite (ratio_full_scale raw Hfs).
  destruct (_photocell_on_ground st);
    (destruct (truncate _) as [z|]; [|lia]);
    (destruct ((0 <=? z) && (z <? ULONG_MOD)); [split; reflexivity | lia]).
Qed.

(** X11. On a platform with [pow(2, 12) = 4096], for every raw value from 1 to
    4096 and either orientation the divider formula has an integer part that
    an [unsigned long] holds, at most 13513500 ohms, so the resistance does not
    depend on what the platform does with unrepresentable conversions.  Over
    that range the resistance never rises with the raw value when the
    photocell is the upper leg, and never falls when it is grounded. *)
Theorem resistance_over_the_adc_range `{Platform} (st : state) (raw raw' : Z) :
  full_scale = F64.of_Z 4096 ->
  1 <= raw -> raw <= raw' -> raw' <= 4096 ->
  truncate (divider st raw) = Some (photocell_resistor st raw) /\
  0 <= photocell_resistor st raw <= 13513500 /\
  (if _photocell_on_ground st
   then photocell_resistor st raw <= photocell_resistor st raw'
   else photocell_resistor st raw' <= photocell_resistor st raw).
Proof.
  intros Hfs Hlo Hle Hhi.
  pose proof (adc_resistor_range (_photocell_on_ground st) raw ltac:(lia)) as Hrange.
  pose proof (adc_resistor_range (_photocell_on_ground st) raw' ltac:(lia)) as Hrange'.
  destruct (photocell_resistor_adc st raw Hfs (proj1 Hrange)) as [Htrunc Heq].
  destruct (photocell_resistor_adc st raw' Hfs (proj1 Hrange')) as [_ Heq'].
  split; [exact Htrunc|]. rewrite Heq, Heq'. split; [exact Hrange|].
  pose proof (adc_resistor_monotone (Z.to_nat (raw' - raw)) raw Hlo ltac:(lia)) as Hmono.
  replace (raw + Z.of_nat (Z.to_nat (raw' - raw))) with raw' in Hmono by lia.
  destruct (_photocell_on_ground st); lia.
Qed.

Lemma resistance_over_the_adc_range_witness :
  @photocell_resistor reference_platform
     (calibrated false (F32.of_Z 120) (F32.of_Z 1) (LDR_init GL5528 startup)) 4000
  <= @photocell_resistor reference_platform
       (calibrated false (F32.of_Z 120) (F32.of_Z 1) (LDR_init GL5528 startup)) 100.
Proof.
  destruct (@resistance_over_the_adc_range reference_platform
              (calibrated false (F32.of_Z 120) (F32.of_Z 1) (LDR_init GL5528 startup))
              100 4000 reference_full_scale) as (_ & _ & Hmono);
    [lia | lia | lia |].
  exact Hmono.
Defined.

(** ** The first read after a re-initialisation *)

(** X12. In any state a program reaches, the first [LDR_getSmoothedLux] after an
    [LDR_init] takes the filling branch with the running sum and the
    next-write index that the earlier reads left: it returns
    [(old sum + sample) / (old index + 1)], or [/ 10] when the old index is 9,
    and stores [old sum + sample] as the running sum. *)
Theorem first_read_after_init `{Platform} (program : list call) (typeDevice raw : Z) :
  fst (LDR_getSmoothedLux (LDR_init typeDevice (snd (run program startup))) raw)
  = F32.div
      (F32.add (_smoothing_sum (snd (run program startup)))
               (LDR_getCurrentLux (LDR_init typeDevice (snd (run program startup))) raw))
      (F32.of_Z (if _smoothing_history_next (snd (run program startup)) <? 9
                 then _smoothing_history_next (snd (run program startup)) + 1
                 else 10)) /\
  _smoothing_sum
    (snd (LDR_getSmoothedLux (LDR_init typeDevice (snd (run program startup))) raw))
  = F32.add (_smoothing_sum (snd (run program startup)))
            (LDR_getCurrentLux (LDR_init typeDevice (snd (run program startup))) raw).
Proof.
  destruct (run_within_bounds program startup startup_within_bounds)
    as (Hlen & _ & Hnext & _).
  set (st := snd (run program startup)) in *.
  unfold SMOOTHING_HISTORY_SIZE, HISTORY_SLOTS in *.
  assert (Hlen' : length (_smoothing_history_values (LDR_init typeDevice st)) = 100%nat)
    by (unfold LDR_init, LDR_init_with; cbn [_smoothing_history_values];
        rewrite mark_unfilled_length; exact Hlen).
  assert (Hbelow : _smoothing_history_values (LDR_init typeDevice st)
                     !! Z.to_nat (_smoothing_history_next st) = Some minus_one_f).
  { unfold LDR_init, LDR_init_with. cbn [_smoothing_history_values].
    change (Z.to_nat (if HISTORY_SLOTS <? SMOOTHING_HISTORY_SIZE `mod` UINT32_MOD
                      then HISTORY_SLOTS else SMOOTHING_HISTORY_SIZE `mod` UINT32_MOD))
      with 10%nat.
    rewrite mark_unfilled_lookup by lia.
    destruct (decide _); [|lia].
    destruct (_smoothing_history_values st !! _) eqn:E; [reflexivity|].
    apply lookup_ge_None in E. lia. }
  unfold LDR_getSmoothedLux.
  set (lux := LDR_getCurrentLux (LDR_init typeDevice st) raw). clearbody lux.
  unfold smooth.
  change (_smoothing_history_size (LDR_init typeDevice st)) with 10.
  change (_smoothing_history_next (LDR_init typeDevice st)) with (_smoothing_history_next st).
  change (_smoothing_sum (LDR_init typeDevice st)) with (_smoothing_sum st).
  cbn [Z.eqb].
  assert (Hslot : array_get (_smoothing_history_values (LDR_init typeDevice st))
                            (_smoothing_history_next st) = minus_one_f)
    by (unfold array_get; rewrite Hbelow; reflexivity).
  rewrite Hslot.
  change (F32.ltb minus_one_f minus_tenth_f) with (unfilled minus_one_f).
  rewrite unfilled_minus_one, array_get_set by lia.
  change ((10 - 1) `mod` UINT32_MOD) with 9.
  destruct (_smoothing_history_next st <? 9) eqn:E.
  - apply Z.ltb_lt in E. rewrite Z.mod_small by (unfold UINT32_MOD; lia).
    split; reflexivity.
  - split; reflexivity.
Qed.

(** X13. When [pow(2, 12)] is 4096, the full-scale guard changes the raw value
    4096 and no other value of a [uint16_t]: every other raw value enters the
    ratio as it is. *)
Theorem guard_changes_4096_only `{Platform} (raw : Z) :
  full_scale = F64.of_Z 4096 ->
  0 <= raw < UINT16_MOD ->
  raw <> 4096 ->
  guarded_raw raw = raw /\ ratio_divisor raw = F32.of_Z raw.
Proof.
  intros Hfs Hraw Hne.
  assert (Hg : guarded_raw raw = raw).
  { rewrite (guarded_raw_uint16 raw Hfs Hraw).
    destruct (raw =? 4096) eqn:E; [apply Z.eqb_eq in E; contradiction | reflexivity]. }
  split; [exact Hg|]. unfold ratio_divisor. rewrite Hg. reflexivity.
Qed.

Lemma guard_changes_4096_only_witness :
  @guarded_raw reference_platform 4097 = 4097 /\
  @ratio_divisor reference_platform 4097 = F32.of_Z 4097.
Proof.
  apply (@guard_changes_4096_only reference_platform 4097 reference_full_scale);
    [vm_compute; intuition discriminate | discriminate].
Defined.
